(** * A browser music player: upload, local persistence and playback state

    Shallow embedding of the player hook ([src/hooks/useAudioPlayer.js]),
    the Web Audio wrapper ([src/services/audioContext.js]), the
    localStorage service and the uploader component
    ([src/components/AudioUploader.jsx]), followed by the properties
    established about them.

    Browser objects (the audio element, [localStorage], [FileReader],
    [JSON]) are not part of the repository; they are modelled by the small
    interfaces of the first modules, at the level at which the source uses
    them. *)

From Stdlib Require Import QArith Bool List String Ascii ZArith Lia.
From stdpp Require Import gmap strings list pretty.

Local Open Scope string_scope.
Set Warnings "-register-all".

(** ** JavaScript values used by the program *)

Module JS.

(** A JavaScript number: the finite values (as rationals, which cover
    every finite double), the two infinities and NaN. *)
Inductive number : Type :=
| NaN
| NegInf
| Fin (q : Q)
| PosInf.

Definition isNaN (n : number) : bool :=
  match n with NaN => true | _ => false end.

(** [a < b] of JavaScript: false as soon as one side is NaN. *)
Definition lt (a b : number) : bool :=
  match a, b with
  | NaN, _ | _, NaN => false
  | PosInf, _ => false
  | _, NegInf => false
  | NegInf, _ => true
  | _, PosInf => true
  | Fin x, Fin y => negb (Qle_bool y x)
  end.

(** [a > b] of JavaScript. *)
Definition gt (a b : number) : bool := lt b a.

(** [Math.min(a, b)] and [Math.max(a, b)]: NaN is contagious. *)
Definition Math_min (a b : number) : number :=
  if isNaN a || isNaN b then NaN else if lt b a then b else a.

Definition Math_max (a b : number) : number :=
  if isNaN a || isNaN b then NaN else if lt a b then b else a.

(** The outcome of a call that may throw (or of an awaited promise
    that may reject), with the message of the error. *)
Inductive result (A : Type) : Type :=
| Ok (a : A)
| Throw (message : string).
Arguments Ok {A} a.
Arguments Throw {A} message.

Definition bind {A B} (r : result A) (k : A -> result B) : result B :=
  match r with Ok a => k a | Throw m => Throw m end.

End JS.

Notation "x <- c1 ;;; c2" := (JS.bind c1 (fun x => c2))
  (at level 100, c1 at next level, right associativity).

(** ** Code that changes a state and may throw *)

Module Eff.

(** A computation over a state of type [S]: its outcome and the state it
    leaves.  What was changed before a [throw] stays changed. *)
Definition M (S A : Type) : Type := S -> JS.result A * S.

Definition ret {S A} (a : A) : M S A := fun s => (JS.Ok a, s).
Definition throw {S A} (message : string) : M S A := fun s => (JS.Throw message, s).
Definition bind {S A B} (m : M S A) (k : A -> M S B) : M S B :=
  fun s => match m s with
           | (JS.Ok a, s') => k a s'
           | (JS.Throw e, s') => (JS.Throw e, s')
           end.
(** [try { m } catch (error) { handler(error.message) }] *)
Definition try_catch {S A} (m : M S A) (handler : string -> M S A) : M S A :=
  fun s => match m s with
           | (JS.Ok a, s') => (JS.Ok a, s')
           | (JS.Throw e, s') => handler e s'
           end.
(** A call that cannot touch the state, lifted. *)
Definition lift {S A} (r : JS.result A) : M S A := fun s => (r, s).
(** A change of the state that cannot throw. *)
Definition update {S} (f : S -> S) : M S unit := fun s => (JS.Ok tt, f s).

End Eff.

Declare Scope eff_scope.
Delimit Scope eff_scope with eff.
Notation "x <- c1 ;; c2" := (Eff.bind c1 (fun x => c2))
  (at level 100, c1 at next level, right associativity) : eff_scope.
Notation "c1 ;; c2" := (Eff.bind c1 (fun _ => c2))
  (at level 100, right associativity) : eff_scope.

(** ** The audio element (platform) *)

Module Audio.

(** The fields of an [HTMLAudioElement] that the hook reads or writes. *)
Record t : Type := mk {
  src : string;
  preload : string;
  volume : JS.number;
  currentTime : JS.number;
  duration : JS.number;
  paused : bool
}.

(** [new Audio()] *)
Definition new : t :=
  {| src := ""; preload := "auto"; volume := JS.Fin 1;
     currentTime := JS.Fin 0; duration := JS.NaN; paused := true |}.

Definition set_src (v : string) (a : t) : JS.result t :=
  JS.Ok (mk v (preload a) (volume a) (currentTime a) (duration a) (paused a)).
Definition set_preload (v : string) (a : t) : JS.result t :=
  JS.Ok (mk (src a) v (volume a) (currentTime a) (duration a) (paused a)).

(** [audio.volume = v]: the element refuses a value that is not finite
    (TypeError) or lies outside [0, 1] (IndexSizeError). *)
Definition set_volume (v : JS.number) (a : t) : JS.result t :=
  match v with
  | JS.Fin q =>
      if Qle_bool 0 q && Qle_bool q 1
      then JS.Ok (mk (src a) (preload a) v (currentTime a) (duration a) (paused a))
      else JS.Throw "IndexSizeError: The volume provided is outside the range [0, 1]."
  | _ => JS.Throw "TypeError: The provided double value is non-finite."
  end.

(** [audio.currentTime = v]: the element refuses a value that is not
    finite (TypeError); a finite one becomes the playback position (the
    hook only assigns positions from 0 to the duration). *)
Definition set_currentTime (v : JS.number) (a : t) : JS.result t :=
  match v with
  | JS.Fin _ => JS.Ok (mk (src a) (preload a) (volume a) v (duration a) (paused a))
  | _ => JS.Throw "TypeError: The provided double value is non-finite."
  end.

(** [audio.play()] and [audio.pause()], as far as [paused] shows. *)
Definition play (a : t) : JS.result t :=
  JS.Ok (mk (src a) (preload a) (volume a) (currentTime a) (duration a) false).
Definition pause (a : t) : JS.result t :=
  JS.Ok (mk (src a) (preload a) (volume a) (currentTime a) (duration a) true).

(** [audio.load()]: the element is reset for the new resource. *)
Definition load (a : t) : JS.result t :=
  JS.Ok (mk (src a) (preload a) (volume a) (JS.Fin 0) JS.NaN true).

(** The browser has read the metadata of the resource: [duration] is
    known. *)
Definition metadata_loaded (d : JS.number) (a : t) : t :=
  mk (src a) (preload a) (volume a) (currentTime a) d (paused a).

End Audio.

(** ** The player hook, [useAudioPlayer] *)

Module useAudioPlayer.

Import Eff.
Local Open Scope eff_scope.

Record Track : Type := {
  id : string;
  name : string;
  url : option string
}.

(** The nine [useState] cells of the hook. *)
Record State : Type := mkState {
  currentTrack : option Track;
  isPlaying : bool;
  currentTime : JS.number;
  duration : JS.number;
  volume : JS.number;
  isLoading : bool;
  error : option string;
  isShuffling : bool;
  repeatMode : string
}.

Definition initialState : State :=
  {| currentTrack := None; isPlaying := false; currentTime := JS.Fin 0;
     duration := JS.Fin 0; volume := JS.Fin 1; isLoading := false;
     error := None; isShuffling := false; repeatMode := "none" |}.

(** The hook instance: its state cells, [audioRef.current], and the
    render whose closures the listeners registered by the mount effect
    hold.  That effect has an empty dependency list, so it runs once and
    its listeners keep the callbacks of the render that ran it. *)
Record Hook : Type := mkHook {
  state : State;
  audioRef : option Audio.t;
  listenerRender : option State
}.

(** The hook after its first render, before its effects have run. *)
Definition unmounted : Hook :=
  {| state := initialState; audioRef := None; listenerRender := None |}.

Definition with_state (f : State -> State) (h : Hook) : Hook :=
  mkHook (f (state h)) (audioRef h) (listenerRender h).

Definition setCurrentTrack (v : option Track) : M Hook unit :=
  update (with_state (fun s => mkState v (isPlaying s) (currentTime s) (duration s)
    (volume s) (isLoading s) (error s) (isShuffling s) (repeatMode s))).
Definition setIsPlaying (v : bool) : M Hook unit :=
  update (with_state (fun s => mkState (currentTrack s) v (currentTime s) (duration s)
    (volume s) (isLoading s) (error s) (isShuffling s) (repeatMode s))).
Definition setCurrentTime (v : JS.number) : M Hook unit :=
  update (with_state (fun s => mkState (currentTrack s) (isPlaying s) v (duration s)
    (volume s) (isLoading s) (error s) (isShuffling s) (repeatMode s))).
Definition setDuration (v : JS.number) : M Hook unit :=
  update (with_state (fun s => mkState (currentTrack s) (isPlaying s) (currentTime s) v
    (volume s) (isLoading s) (error s) (isShuffling s) (repeatMode s))).
Definition setVolume (v : JS.number) : M Hook unit :=
  update (with_state (fun s => mkState (currentTrack s) (isPlaying s) (currentTime s)
    (duration s) v (isLoading s) (error s) (isShuffling s) (repeatMode s))).
Definition setIsLoading (v : bool) : M Hook unit :=
  update (with_state (fun s => mkState (currentTrack s) (isPlaying s) (currentTime s)
    (duration s) (volume s) v (error s) (isShuffling s) (repeatMode s))).
Definition setError (v : option string) : M Hook unit :=
  update (with_state (fun s => mkState (currentTrack s) (isPlaying s) (currentTime s)
    (duration s) (volume s) (isLoading s) v (isShuffling s) (repeatMode s))).
Definition setIsShuffling (f : bool -> bool) : M Hook unit :=
  update (with_state (fun s => mkState (currentTrack s) (isPlaying s) (currentTime s)
    (duration s) (volume s) (isLoading s) (error s) (f (isShuffling s))
    (repeatMode s))).
Definition setRepeatMode (f : string -> string) : M Hook unit :=
  update (with_state (fun s => mkState (currentTrack s) (isPlaying s) (currentTime s)
    (duration s) (volume s) (isLoading s) (error s) (isShuffling s)
    (f (repeatMode s)))).

(** [audioRef.current] *)
Definition audioRef_current : M Hook (option Audio.t) :=
  fun h => (JS.Ok (audioRef h), h).

(** [audioRef.current.f = v] and [audioRef.current.m()]: the element is
    replaced by what the assignment or the call makes of it. *)
Definition on_audio (f : Audio.t -> JS.result Audio.t) : M Hook unit :=
  fun h => match audioRef h with
           | Some a =>
               match f a with
               | JS.Ok a' => (JS.Ok tt, mkHook (state h) (Some a') (listenerRender h))
               | JS.Throw e => (JS.Throw e, h)
               end
           | None => (JS.Throw "TypeError: Cannot read properties of null", h)
           end.

(** The mount effect ([useEffect(..., [])]): creates the element and
    registers the listeners of the render [state h]. *)
Definition mount (h : Hook) : Hook :=
  mkHook (state h)
         (Some (Audio.mk "" "metadata" (JS.Fin 1) (JS.Fin 0) JS.NaN true))
         (Some (state h)).

(** [handleTrackEnd], a [useCallback] over [repeatMode]: the first
    argument is the [repeatMode] of the render that created the
    callback. *)
Definition handleTrackEnd (repeatMode' : string) : M Hook unit :=
  if (repeatMode' =? "one")%string then
    on_audio (Audio.set_currentTime (JS.Fin 0)) ;;
    on_audio Audio.play ;;
    setIsPlaying true
  else
    setCurrentTime (JS.Fin 0).

(** [handleEnded], defined inside the mount effect of render [r]: it
    calls the [handleTrackEnd] of that render. *)
Definition handleEnded (r : State) : M Hook unit :=
  setIsPlaying false ;;
  handleTrackEnd (repeatMode r).

(** [handleLoadedMetadata] and [handleLoadStart], two more listeners of
    the mount effect; they only call setters. *)
Definition handleLoadedMetadata : M Hook unit :=
  a <- audioRef_current ;;
  match a with
  | Some audio => setDuration (Audio.duration audio) ;; setIsLoading false
  | None => ret tt
  end.

Definition handleLoadStart : M Hook unit :=
  setIsLoading true ;;
  setError None.

(** The element fires [ended]: the registered listener runs. *)
Definition ended : M Hook unit :=
  fun h => match listenerRender h with
           | Some r => handleEnded r h
           | None => (JS.Ok tt, h)
           end.

(** The element fires [loadedmetadata], the duration being [d]. *)
Definition loadedmetadata (d : JS.number) : M Hook unit :=
  on_audio (fun a => JS.Ok (Audio.metadata_loaded d a)) ;;
  handleLoadedMetadata.

(** [loadTrack], a [useCallback] over [volume]. *)
Definition loadTrack (volume' : JS.number) (track : option Track) : M Hook unit :=
  match track with
  | Some {| url := Some (String c u) |} =>
      setCurrentTrack track ;;
      setIsLoading true ;;
      setError None ;;
      setCurrentTime (JS.Fin 0) ;;
      a <- audioRef_current ;;
      match a with
      | Some _ =>
          on_audio (Audio.set_src (String c u)) ;;
          on_audio (Audio.set_volume volume') ;;
          on_audio Audio.load
      | None => ret tt
      end
  | _ => setError (Some "Invalid track data")
  end.

(** [play], a [useCallback] over [currentTrack]; [resolves] tells whether
    the promise of [audio.play()] resolves. *)
Definition play (currentTrack' : option Track) (resolves : bool) : M Hook unit :=
  a <- audioRef_current ;;
  match a, currentTrack' with
  | Some _, Some _ =>
      if resolves then
        on_audio Audio.play ;;
        setIsPlaying true ;;
        setError None
      else
        setError (Some "Failed to play audio") ;;
        setIsPlaying false
  | _, _ => ret tt
  end.

Definition pause : M Hook unit :=
  a <- audioRef_current ;;
  match a with
  | Some _ => on_audio Audio.pause ;; setIsPlaying false
  | None => ret tt
  end.

(** [seekTo], a [useCallback] over [duration]. *)
Definition seekTo (duration' : JS.number) (time : JS.number) : M Hook unit :=
  a <- audioRef_current ;;
  match a with
  | Some _ =>
      if negb (JS.isNaN time) then
        let seekTime := JS.Math_max (JS.Fin 0) (JS.Math_min time duration') in
        on_audio (Audio.set_currentTime seekTime) ;;
        setCurrentTime seekTime
      else ret tt
  | None => ret tt
  end.

Definition changeVolume (newVolume : JS.number) : M Hook unit :=
  let vol := JS.Math_max (JS.Fin 0) (JS.Math_min (JS.Fin 1) newVolume) in
  setVolume vol ;;
  a <- audioRef_current ;;
  match a with
  | Some _ => on_audio (Audio.set_volume vol)
  | None => ret tt
  end.

Definition toggleMute : M Hook unit :=
  a <- audioRef_current ;;
  match a with
  | Some audio =>
      if JS.gt (Audio.volume audio) (JS.Fin 0) then
        on_audio (Audio.set_volume (JS.Fin 0)) ;;
        setVolume (JS.Fin 0)
      else
        on_audio (Audio.set_volume (JS.Fin 1)) ;;
        setVolume (JS.Fin 1)
  | None => ret tt
  end.

Definition toggleShuffle : M Hook unit := setIsShuffling negb.

(** The updater passed to [setRepeatMode] by [toggleRepeat]. *)
Definition nextRepeatMode (prev : string) : string :=
  if (prev =? "none")%string then "all"
  else if (prev =? "all")%string then "one"
  else if (prev =? "one")%string then "none"
  else "none".

Definition toggleRepeat : M Hook unit := setRepeatMode nextRepeatMode.

(** Calls made through the callbacks of the current render: every
    [useCallback] above lists the state it reads as a dependency, so the
    callback of the current render sees the current state. *)
Definition call_loadTrack (track : option Track) : M Hook unit :=
  fun h => loadTrack (volume (state h)) track h.
Definition call_play (resolves : bool) : M Hook unit :=
  fun h => play (currentTrack (state h)) resolves h.
Definition call_seekTo (time : JS.number) : M Hook unit :=
  fun h => seekTo (duration (state h)) time h.

(** [handleCanPlay] and [handleError], the remaining listeners of the
    mount effect; they only call setters. *)
Definition handleCanPlay : M Hook unit := setIsLoading false.

Definition handleError : M Hook unit :=
  setError (Some "Failed to load audio file") ;;
  setIsLoading false ;;
  setIsPlaying false.

(** [togglePlayPause], a [useCallback] over [isPlaying], [play] and
    [pause]. *)
Definition togglePlayPause (isPlaying' : bool) (currentTrack' : option Track)
    (resolves : bool) : M Hook unit :=
  if isPlaying' then pause else play currentTrack' resolves.

Section Arithmetic.

(** [a + b] and [a - b] as the platform computes them on doubles. *)
Variables plus minus : JS.number -> JS.number -> JS.number.

(** [skipForward], a [useCallback] over [duration] and [seekTo];
    [seconds] is 10 when the caller gives none. *)
Definition skipForward (duration' : JS.number) (seconds : option JS.number)
  : M Hook unit :=
  let seconds := match seconds with Some s => s | None => JS.Fin 10 end in
  a <- audioRef_current ;;
  match a with
  | Some audio =>
      let newTime := JS.Math_min (plus (Audio.currentTime audio) seconds) duration' in
      seekTo duration' newTime
  | None => ret tt
  end.

(** [skipBackward], a [useCallback] over [seekTo]. *)
Definition skipBackward (duration' : JS.number) (seconds : option JS.number)
  : M Hook unit :=
  let seconds := match seconds with Some s => s | None => JS.Fin 10 end in
  a <- audioRef_current ;;
  match a with
  | Some audio =>
      let newTime := JS.Math_max (minus (Audio.currentTime audio) seconds) (JS.Fin 0) in
      seekTo duration' newTime
  | None => ret tt
  end.

End Arithmetic.

Definition reset : M Hook unit :=
  a <- audioRef_current ;;
  match a with
  | Some _ =>
      on_audio Audio.pause ;;
      on_audio (Audio.set_currentTime (JS.Fin 0))
  | None => ret tt
  end ;;
  setCurrentTrack None ;;
  setIsPlaying false ;;
  setCurrentTime (JS.Fin 0) ;;
  setDuration (JS.Fin 0) ;;
  setError None ;;
  setIsLoading false.

(** The element fires [loadstart], [canplay] or [error]: the registered
    listener runs. *)
Definition loadstart : M Hook unit := handleLoadStart.
Definition canplay : M Hook unit := handleCanPlay.
Definition error_event : M Hook unit := handleError.

Definition call_togglePlayPause (resolves : bool) : M Hook unit :=
  fun h => togglePlayPause (isPlaying (state h)) (currentTrack (state h)) resolves h.
Definition call_skipForward (plus : JS.number -> JS.number -> JS.number)
    (seconds : option JS.number) : M Hook unit :=
  fun h => skipForward plus (duration (state h)) seconds h.
Definition call_skipBackward (minus : JS.number -> JS.number -> JS.number)
    (seconds : option JS.number) : M Hook unit :=
  fun h => skipBackward minus (duration (state h)) seconds h.


End useAudioPlayer.

(** ** The Web Audio wrapper, [AudioContextManager] *)

Module AudioContextManager.

(** A gain node: the calls of [gain.setValueAtTime(value, time)] it has
    accepted, latest first. *)
Record GainNode : Type := { setValueAtTime_calls : list (JS.number * JS.number) }.

(** [gain.setValueAtTime(value, time)]: a value that is not finite is
    refused (TypeError). *)
Definition setValueAtTime (value time : JS.number) (g : GainNode) : JS.result GainNode :=
  match value with
  | JS.Fin _ => JS.Ok {| setValueAtTime_calls := (value, time) :: setValueAtTime_calls g |}
  | _ => JS.Throw "TypeError: The provided float value is non-finite."
  end.

Record AudioContext : Type := { currentTime : JS.number }.

Record t : Type := mk {
  audioContext : option AudioContext;
  gainNode : option GainNode;
  isInitialized : bool
}.

(** The constructor. *)
Definition new : t :=
  {| audioContext := None; gainNode := None; isInitialized := false |}.

Definition setVolume (volume : JS.number) (this : t) : JS.result t :=
  match gainNode this with
  | Some g =>
      let clampedVolume := JS.Math_max (JS.Fin 0) (JS.Math_min (JS.Fin 1) volume) in
      match audioContext this with
      | Some ctx =>
          g' <- setValueAtTime clampedVolume (currentTime ctx) g ;;;
          JS.Ok (mk (audioContext this) (Some g') (isInitialized this))
      | None => JS.Throw "TypeError: Cannot read properties of null"
      end
  | None => JS.Ok this
  end.

End AudioContextManager.

(** ** [localStorage] (platform) *)

Module LocalStorage.

(** How the browser answers.  [Denied]: every access raises
    (storage disabled).  [Full]: reads and removals work, [setItem]
    raises [QuotaExceededError]; the quota is not counted byte by byte,
    [Full] stands for a store that refuses what the program writes.
    [Usable]: every call works. *)
Inductive mode : Type := Denied | Full | Usable.

Record t : Type := mk {
  items : gmap string string;
  status : mode
}.

Import Eff.

(** A computation over the store. *)
Abbreviation M := (Eff.M t).

Definition getItem (key : string) : M (option string) :=
  fun ls => match status ls with
            | Denied => (JS.Throw "SecurityError", ls)
            | _ => (JS.Ok (items ls !! key), ls)
            end.

Definition setItem (key value : string) : M unit :=
  fun ls => match status ls with
            | Denied => (JS.Throw "SecurityError", ls)
            | Full => (JS.Throw "QuotaExceededError", ls)
            | Usable => (JS.Ok tt, mk (<[key := value]> (items ls)) Usable)
            end.

Definition removeItem (key : string) : M unit :=
  fun ls => match status ls with
            | Denied => (JS.Throw "SecurityError", ls)
            | st => (JS.Ok tt, mk (delete key (items ls)) st)
            end.

(** The names of the own properties of [Storage.prototype] and of
    [Object.prototype].  An item stored under one of them is reached by
    [getItem] but is no own property of [localStorage]: the member of
    the prototype hides it. *)
Definition prototype_members : list string :=
  ["length"; "key"; "getItem"; "setItem"; "removeItem"; "clear"; "constructor";
   "hasOwnProperty"; "isPrototypeOf"; "propertyIsEnumerable"; "toString";
   "toLocaleString"; "valueOf"; "__proto__"; "__defineGetter__";
   "__defineSetter__"; "__lookupGetter__"; "__lookupSetter__"].

(** [localStorage.hasOwnProperty(key)] for the key of a stored item. *)
Definition hasOwnProperty (key : string) : bool :=
  negb (existsb (String.eqb key) prototype_members).

(** The keys that [for (key in localStorage)] visits and for which
    [localStorage.hasOwnProperty(key)] holds, with [localStorage[key]]:
    the stored items that are own properties.  (The loop also visits the
    members of the prototype, which the check skips.) *)
Definition entries (ls : t) : list (string * string) :=
  List.filter (fun kv => hasOwnProperty (fst kv)) (map_to_list (items ls)).

End LocalStorage.


(** ** JSON data (platform) *)

Module JSON.

(** The values [JSON.parse] produces and [JSON.stringify] writes
    unchanged.  An object holds one entry per key. *)
Inductive value : Type :=
| Null
| Bool (b : bool)
| Num (n : JS.number)
| Str (s : string)
| Arr (elements : list value)
| Obj (members : list (string * value)).

(** The platform's [JSON.parse] ([None]: it throws a [SyntaxError]) and
    [JSON.stringify]. *)
Class Codec : Type := {
  parse : string -> option value;
  stringify : value -> string
}.

(** [v[key]] for a key that is no built-in property ([None] is
    [undefined]); reading a property of [null] throws. *)
Fixpoint lookup (key : string) (members : list (string * value)) : option value :=
  match members with
  | [] => None
  | (k, v) :: rest => if (k =? key)%string then Some v else lookup key rest
  end.

Definition get (key : string) (v : value) : JS.result (option value) :=
  match v with
  | Null => JS.Throw "TypeError: Cannot read properties of null"
  | Obj members => JS.Ok (lookup key members)
  | _ => JS.Ok None
  end.

(** [v === s] for a property read [v] and a string [s]. *)
Definition is_string (s : string) (v : option value) : bool :=
  match v with
  | Some (Str s') => (s' =? s)%string
  | _ => false
  end.


(** The elements that the spread [[...v]] iterates over. *)
Definition spread (v : value) : JS.result (list value) :=
  match v with
  | Arr elements => JS.Ok elements
  | Str s => JS.Ok (map (fun c => Str (String c "")) (list_ascii_of_string s))
  | _ => JS.Throw "TypeError: object is not iterable"
  end.


Fixpoint filter (p : value -> JS.result bool) (elements : list value)
  : JS.result (list value) :=
  match elements with
  | [] => JS.Ok []
  | e :: rest =>
      b <- p e ;;;
      kept <- filter p rest ;;;
      JS.Ok (if b then e :: kept else kept)
  end.

End JSON.


(** ** Object spread and array search (platform) *)

Module Objects.

Import JSON.

(** The value of a run of decimal digits. *)
Fixpoint digits_value (acc : N) (l : list ascii) : option N :=
  match l with
  | [] => Some acc
  | c :: l' =>
      let n := N_of_ascii c in
      if (48 <=? n)%N && (n <=? 57)%N
      then digits_value (acc * 10 + (n - 48))%N l'
      else None
  end.

(** The array index a property key stands for, if it is one: a decimal
    numeral without leading zero, at most 2^32 - 2.  An object lists such
    keys first, in ascending order, and then its other keys in the order
    of their creation. *)
Definition array_index (key : string) : option N :=
  match list_ascii_of_string key with
  | [] => None
  | "0"%char :: _ :: _ => None
  | l =>
      match digits_value 0 l with
      | Some n => if (n <=? 4294967294)%N then Some n else None
      | None => None
      end
  end.

(** [key] is given the value [v] where the object has it already. *)
Fixpoint replace (key : string) (v : value) (members : list (string * value))
  : option (list (string * value)) :=
  match members with
  | [] => None
  | (k, x) :: rest =>
      if (k =? key)%string then Some ((k, v) :: rest)
      else option_map (cons (k, x)) (replace key v rest)
  end.

(** A new key that is the array index [n] takes its place among the
    index keys. *)
Fixpoint insert_index (n : N) (key : string) (v : value)
    (members : list (string * value)) : list (string * value) :=
  match members with
  | [] => [(key, v)]
  | (k, x) :: rest =>
      match array_index k with
      | Some m =>
          if (m <? n)%N then (k, x) :: insert_index n key v rest
          else (key, v) :: members
      | None => (key, v) :: members
      end
  end.

(** [object[key] = v] on a plain object given by its members in the
    order in which the platform lists them. *)
Definition define (key : string) (v : value) (members : list (string * value))
  : list (string * value) :=
  match replace key v members with
  | Some members' => members'
  | None =>
      match array_index key with
      | Some n => insert_index n key v members
      | None => members ++ [(key, v)]
      end
  end.

(** The own enumerable properties that a spread [{...v}] copies. *)
Definition own_properties (v : value) : list (string * value) :=
  match v with
  | Obj members => members
  | Arr elements => imap (fun i e => (pretty i, e)) elements
  | Str s => imap (fun i c => (pretty i, Str (String c ""))) (list_ascii_of_string s)
  | _ => []
  end.

(** The properties of [source] are copied onto an object, in order. *)
Definition copy (source : value) (members : list (string * value))
  : list (string * value) :=
  fold_left (fun members kv => define (fst kv) (snd kv) members)
            (own_properties source) members.

(** [{...a, ...b}] *)
Definition spread2 (a b : value) : value := Obj (copy b (copy a [])).

(** [array.findIndex(p)] for a callback that may throw; [None] is -1. *)
Fixpoint findIndex (p : value -> JS.result bool) (elements : list value)
  : JS.result (option nat) :=
  match elements with
  | [] => JS.Ok None
  | e :: rest =>
      b <- p e ;;;
      if b then JS.Ok (Some 0%nat)
      else i <- findIndex p rest ;;; JS.Ok (option_map S i)
  end.

End Objects.

(** ** Files and the environment (platform) *)

Module File.

(** A [File] picked by the user.  Besides its attributes it carries what
    the browser will answer when the program reads it:
    [readAsDataURL] is [reader.result] after
    [FileReader.readAsDataURL(file)] ([None]: the reader fires [error]),
    and [duration] is [audio.duration] once an audio element given the
    file's content fires [loadedmetadata] ([None]: it fires [error]). *)
Record t : Type := {
  name : string;
  type : string;
  size : Z;
  lastModified : Z;
  readAsDataURL : option string;
  duration : option JS.number
}.

End File.

(** What the clock and the random generator answer during one call. *)
Record Env : Type := {
  generatedId : string;      (* Date.now().toString(36) + Math.random()... *)
  Date_now : string;         (* Date.now().toString() *)
  Date_toISOString : string  (* new Date().toISOString() *)
}.

(** ** String helpers standing for the regular expressions of the source *)

Module Text.

Definition lower (c : ascii) : ascii :=
  let n := nat_of_ascii c in
  if (65 <=? n)%nat && (n <=? 90)%nat then ascii_of_nat (n + 32) else c.

Fixpoint is_prefix_ci (p s : list ascii) : bool :=
  match p, s with
  | [], _ => true
  | _ :: _, [] => false
  | a :: p', b :: s' => Ascii.eqb (lower a) (lower b) && is_prefix_ci p' s'
  end.

(** [s] ends with [suffix], letters compared without case. *)
Definition ends_with_ci (suffix s : string) : bool :=
  is_prefix_ci (rev (list_ascii_of_string suffix)) (rev (list_ascii_of_string s)).

(** [/\.(e1|e2|...)$/i.test(s)] *)
Definition has_extension (extensions : list string) (s : string) : bool :=
  existsb (fun e => ends_with_ci ("." ++ e) s) extensions.

(** [validTypes.includes(s)] *)
Definition includes (l : list string) (s : string) : bool :=
  existsb (fun x => (x =? s)%string) l.

Definition plain (c : ascii) : bool :=
  negb (Ascii.eqb c "/" || Ascii.eqb c ".").

(** The longest run of characters other than [/] and [.] at the head of
    a list, and what follows it. *)
Fixpoint span_plain (l : list ascii) : list ascii * list ascii :=
  match l with
  | c :: l' =>
      if plain c then let '(run, rest) := span_plain l' in (c :: run, rest)
      else ([], l)
  | [] => ([], [])
  end.

(** [s.replace(/\.[^/.]+$/, "")]: a last extension, if any, is cut off. *)
Definition strip_extension (s : string) : string :=
  match span_plain (rev (list_ascii_of_string s)) with
  | (_ :: _, "."%char :: before) => string_of_list_ascii (rev before)
  | _ => s
  end.

End Text.

(** ** The storage service *)

Module audioStorage.

Import Eff LocalStorage JSON.
Local Open Scope eff_scope.

Module STORAGE_KEYS.
Definition AUDIO_FILES := "player_audio_files".
Definition CURRENT_PLAYLIST := "player_current_playlist".
Definition PLAYBACK_STATE := "player_playback_state".
Definition USER_PREFERENCES := "player_user_preferences".
End STORAGE_KEYS.

(** What a caller may hand to [saveAudioFile]: a [File], or any other
    object (JavaScript does not check). *)
Inductive argument : Type :=
| AFile (file : File.t)
| AObject (object : JSON.value).

Definition of_Z (z : Z) : JS.number := JS.Fin (inject_Z z).

(** [fileToBase64].  [readAsDataURL] accepts only a [Blob]; for
    anything else it throws inside the promise executor, which rejects
    the promise.  The reader's [error] event rejects with the event,
    whose [message] is [undefined]. *)
Definition fileToBase64 (file : argument) : JS.result string :=
  match file with
  | AFile f =>
      match File.readAsDataURL f with
      | Some dataURL => JS.Ok dataURL
      | None => JS.Throw "undefined"
      end
  | AObject _ =>
      JS.Throw "Failed to execute 'readAsDataURL' on 'FileReader': parameter 1 is not of type 'Blob'."
  end.

(** [extractMetadata]: resolves on [loadedmetadata] and on [error]. *)
Definition extractMetadata (file : argument) : JS.result JSON.value :=
  match file with
  | AFile f =>
      JS.Ok (Obj [("duration", Num (match File.duration f with
                                     | Some d => d
                                     | None => JS.Fin 0
                                     end));
                  ("name", Str (Text.strip_extension (File.name f)));
                  ("fileName", Str (File.name f));
                  ("size", Num (of_Z (File.size f)));
                  ("type", Str (File.type f));
                  ("lastModified", Num (of_Z (File.lastModified f)))])
  | AObject _ =>
      JS.Throw "Failed to execute 'createObjectURL' on 'URL': Overload resolution failed."
  end.

Definition checkStorageAvailability : M bool :=
  try_catch
    (let test := "__storage_test__" in
     setItem test test ;;
     removeItem test ;;
     ret true)
    (fun _ => ret false).

Record StorageInfo : Type := {
  used : Z;
  available : Z;
  total : Z
}.

(** [getStorageInfo]: the loop adds the length of [localStorage[key]]
    for every key that passes [localStorage.hasOwnProperty(key)].  The
    two display strings [usedMB] and [availableMB] of the result are left
    out. *)
Definition getStorageInfo : M StorageInfo :=
  ok <- checkStorageAvailability ;;
  if negb ok then ret {| used := 0; available := 0; total := 0 |}
  else
    fun ls =>
      let used :=
        fold_left (fun used kv => used + Z.of_nat (String.length (snd kv)))%Z
                  (entries ls) 0%Z in
      let total := (10 * 1024 * 1024)%Z in
      let available := (total - used)%Z in
      (JS.Ok {| used := used; available := available; total := total |}, ls).

Section WithJSON.

Context {codec : Codec}.

(** [stored ? JSON.parse(stored) : fallback] *)
Definition parse_or (fallback : value) (stored : option string) : JS.result value :=
  match stored with
  | Some (String c s) =>
      match parse (String c s) with
      | Some v => JS.Ok v
      | None => JS.Throw "SyntaxError"
      end
  | _ => JS.Ok fallback
  end.

Definition getAudioFiles : M value :=
  ok <- checkStorageAvailability ;;
  if negb ok then ret (Arr [])
  else
    try_catch
      (stored <- getItem STORAGE_KEYS.AUDIO_FILES ;;
       lift (parse_or (Arr []) stored))
      (fun _ => ret (Arr [])).

Definition saveAudioFile (env : Env) (file : argument) : M value :=
  ok <- checkStorageAvailability ;;
  if negb ok then throw "LocalStorage is not available"
  else
    try_catch
      (base64Data <- lift (fileToBase64 file) ;;
       metadata <- lift (extractMetadata file) ;;
       let id := generatedId env in
       let audioFile :=
         Obj [("id", Str id);
              ("data", Str base64Data);
              ("metadata", metadata);
              ("createdAt", Str (Date_toISOString env));
              ("playCount", Num (JS.Fin 0));
              ("lastPlayed", Null)] in
       existingFiles <- getAudioFiles ;;
       existing <- lift (spread existingFiles) ;;
       let updatedFiles := Arr (existing ++ [audioFile]) in
       setItem STORAGE_KEYS.AUDIO_FILES (stringify updatedFiles) ;;
       ret audioFile)
      (fun message => throw ("Failed to save audio file: " ++ message)).

(** [file => file.id === id] *)
Definition has_id (id : string) (file : value) : JS.result bool :=
  file_id <- get "id" file ;;;
  JS.Ok (is_string id file_id).

(** [files.m(...)] for an array method [m]: only arrays have it. *)
Definition as_array (files : value) : JS.result (list value) :=
  match files with
  | Arr elements => JS.Ok elements
  | _ => JS.Throw "TypeError: files.find is not a function"
  end.


Definition deleteAudioFile (id : string) : M bool :=
  try_catch
    (files <- getAudioFiles ;;
     updatedFiles <- lift (elements <- as_array files ;;;
                           filter (fun file => b <- has_id id file ;;; JS.Ok (negb b))
                                  elements) ;;
     setItem STORAGE_KEYS.AUDIO_FILES (stringify (Arr updatedFiles)) ;;
     ret true)
    (fun _ => ret false).

Definition getPlaylistState : M value :=
  try_catch
    (stored <- getItem STORAGE_KEYS.CURRENT_PLAYLIST ;;
     lift (parse_or (Arr []) stored))
    (fun _ => ret (Arr [])).

Definition getPlaybackState : M value :=
  try_catch
    (stored <- getItem STORAGE_KEYS.PLAYBACK_STATE ;;
     lift (parse_or Null stored))
    (fun _ => ret Null).

Definition defaultPreferences : value :=
  Obj [("volume", Num (JS.Fin 1));
       ("shuffle", Bool false);
       ("repeat", Str "none");
       ("theme", Str "dark")].

Definition getUserPreferences : M value :=
  try_catch
    (stored <- getItem STORAGE_KEYS.USER_PREFERENCES ;;
     lift (parse_or defaultPreferences stored))
    (fun _ => ret defaultPreferences).

Definition updateAudioFile (id : string) (updates : value) : M bool :=
  try_catch
    (files <- getAudioFiles ;;
     elements <- lift (as_array files) ;;
     fileIndex <- lift (Objects.findIndex (has_id id) elements) ;;
     match fileIndex with
     | None => ret false
     | Some i =>
         let files :=
           Arr (<[i := Objects.spread2 (nth i elements Null) updates]> elements) in
         setItem STORAGE_KEYS.AUDIO_FILES (stringify files) ;;
         ret true
     end)
    (fun _ => ret false).

Definition savePlaylistState (playlist : value) : M bool :=
  try_catch
    (setItem STORAGE_KEYS.CURRENT_PLAYLIST (stringify playlist) ;;
     ret true)
    (fun _ => ret false).

Definition savePlaybackState (env : Env) (state : value) : M bool :=
  try_catch
    (setItem STORAGE_KEYS.PLAYBACK_STATE
       (stringify (Obj (Objects.define "timestamp" (Str (Date_toISOString env))
                                       (Objects.copy state [])))) ;;
     ret true)
    (fun _ => ret false).

Definition saveUserPreferences (preferences : value) : M bool :=
  try_catch
    (existing <- getUserPreferences ;;
     let updated := Objects.spread2 existing preferences in
     setItem STORAGE_KEYS.USER_PREFERENCES (stringify updated) ;;
     ret true)
    (fun _ => ret false).


End WithJSON.

Record Validation : Type := {
  valid : bool;
  error : option string
}.

Definition validTypes : list string :=
  ["audio/mpeg"; "audio/mp3"; "audio/wav"; "audio/ogg"; "audio/aac"; "audio/m4a"].
Definition maxSize : Z := 50 * 1024 * 1024.

Definition validateAudioFile (file : File.t) : M Validation :=
  if negb (Text.includes validTypes (File.type file))
     && negb (Text.has_extension ["mp3"; "wav"; "ogg"; "aac"; "m4a"] (File.name file))
  then ret {| valid := false; error := Some "Invalid audio file type" |}
  else if (File.size file >? maxSize)%Z
  then ret {| valid := false; error := Some "File size too large (max 50MB)" |}
  else
    storageInfo <- getStorageInfo ;;
    if (File.size file >? available storageInfo)%Z
    then ret {| valid := false; error := Some "Not enough storage space available" |}
    else ret {| valid := true; error := None |}.

(** [clearAllData]: the keys in the order of [Object.values(STORAGE_KEYS)]. *)
Definition clearAllData : M bool :=
  try_catch
    (removeItem STORAGE_KEYS.AUDIO_FILES ;;
     removeItem STORAGE_KEYS.CURRENT_PLAYLIST ;;
     removeItem STORAGE_KEYS.PLAYBACK_STATE ;;
     removeItem STORAGE_KEYS.USER_PREFERENCES ;;
     ret true)
    (fun _ => ret false).


End audioStorage.

(** ** The uploader component, [AudioUploader] *)

Module AudioUploader.

Import Eff LocalStorage JSON.
Local Open Scope eff_scope.

Record Status : Type := {
  type : string;
  message : string
}.

(** The [useState] cells of the component. *)
Record State : Type := mkState {
  isDragOver : bool;
  uploading : bool;
  uploadStatus : option Status;
  uploadProgress : JS.number
}.

Definition initialState : State :=
  {| isDragOver := false; uploading := false; uploadStatus := None;
     uploadProgress := JS.Fin 0 |}.

Definition setUploading (v : bool) (s : State) : State :=
  mkState (isDragOver s) v (uploadStatus s) (uploadProgress s).
Definition setUploadStatus (v : option Status) (s : State) : State :=
  mkState (isDragOver s) (uploading s) v (uploadProgress s).
Definition setUploadProgress (v : JS.number) (s : State) : State :=
  mkState (isDragOver s) (uploading s) (uploadStatus s) v.

Definition supportedFormats : list string :=
  ["audio/mpeg"; "audio/mp3"; "audio/wav"; "audio/ogg"; "audio/m4a"].

Definition validateFile (file : File.t) : audioStorage.Validation :=
  if negb (Text.includes supportedFormats (File.type file))
     && negb (Text.has_extension ["mp3"; "wav"; "ogg"; "m4a"] (File.name file))
  then {| audioStorage.valid := false;
          audioStorage.error :=
            Some "Unsupported file format. Please upload MP3, WAV, OGG, or M4A files." |}
  else if (File.size file >? 50 * 1024 * 1024)%Z
  then {| audioStorage.valid := false;
          audioStorage.error :=
            Some "File size too large. Please upload files smaller than 50MB." |}
  else {| audioStorage.valid := true; audioStorage.error := None |}.

(** [processAudioFile]: the promise resolves with a plain object built
    from the file, or rejects. *)
Definition processAudioFile (env : Env) (file : File.t) : JS.result JSON.value :=
  match File.readAsDataURL file with
  | Some audioData =>
      match File.duration file with
      | Some duration =>
          JS.Ok (Obj [("id", Str (Date_now env));
                      ("name", Str (Text.strip_extension (File.name file)));
                      ("file", Str (File.name file));
                      ("duration", Num duration);
                      ("size", Num (audioStorage.of_Z (File.size file)));
                      ("type", Str (File.type file));
                      ("data", Str audioData);
                      ("uploadedAt", Str (Date_toISOString env))])
      | None => JS.Throw "Invalid audio file or corrupted data."
      end
  | None => JS.Throw "Failed to read file."
  end.

(** How the [for] loop of [handleFiles] is left: by one of its [return]
    statements, or at its end with the files processed. *)
Inductive loop_exit : Type :=
| Returned
| Finished (processedFiles : list JSON.value).

Section WithJSON.

Context {codec : Codec}.

(** The loop of [handleFiles] from index [i] on; [envs i] is the
    environment of iteration [i]. *)
Fixpoint upload_loop (envs : nat -> Env) (totalFiles i : nat)
    (fileList : list File.t) (processedFiles : list JSON.value) (s : State)
  : M (State * loop_exit) :=
  match fileList with
  | [] => ret (s, Finished processedFiles)
  | file :: rest =>
      let validation := validateFile file in
      if negb (audioStorage.valid validation) then
        ret (setUploading false
               (setUploadStatus
                  (Some {| type := "error";
                           message := match audioStorage.error validation with
                                      | Some e => e
                                      | None => ""
                                      end |}) s),
             Returned)
      else
        step <- try_catch
                  (audioFile <- lift (processAudioFile (envs i) file) ;;
                   audioStorage.saveAudioFile (envs i) (audioStorage.AObject audioFile) ;;
                   ret (inl audioFile))
                  (fun error_message => ret (inr error_message)) ;;
        match step with
        | inl audioFile =>
            let processedFiles := (processedFiles ++ [audioFile])%list in
            let s := setUploadProgress
                       (JS.Fin (inject_Z (Z.of_nat (i + 1))
                                / inject_Z (Z.of_nat totalFiles) * 100)) s in
            upload_loop envs totalFiles (S i) rest processedFiles s
        | inr error_message =>
            ret (setUploading false
                   (setUploadStatus
                      (Some {| type := "error";
                               message := "Failed to process " ++ File.name file
                                          ++ ": " ++ error_message |}) s),
                 Returned)
        end
  end.

(** [handleFiles]: the final state and, when it was called, the
    argument of [onUploadComplete]. *)
Definition handleFiles (envs : nat -> Env) (files : list File.t) (s : State)
  : M (State * option (list JSON.value)) :=
  let fileList := files in
  if (length fileList =? 0)%nat then ret (s, None)
  else
    let s := setUploadProgress (JS.Fin 0) (setUploadStatus None (setUploading true s)) in
    r <- upload_loop envs (length fileList) 0 fileList [] s ;;
    let finally s := setUploadProgress (JS.Fin 0) (setUploading false s) in
    match r with
    | (s, Returned) => ret (finally s, None)
    | (s, Finished processedFiles) =>
        let n := length processedFiles in
        let s := setUploadStatus
                   (Some {| type := "success";
                            message := "Successfully uploaded " ++ pretty n ++ " file"
                                       ++ (if (1 <? n)%nat then "s" else "") |}) s in
        ret (finally s, Some processedFiles)
    end.

End WithJSON.

End AudioUploader.


(** ** The player component, [AudioPlayer]: playlist navigation *)

Module AudioPlayer.

(** [handlePrevious] and [handleNext] for the props [playlist] and
    [currentIndex]: the argument given to [onTrackChange], [None] when
    the handler returns without calling it. *)
Definition handlePrevious {A} (playlist : list A) (currentIndex : Z) : option Z :=
  if (length playlist =? 0)%nat then None
  else
    let newIndex := if (currentIndex >? 0)%Z then (currentIndex - 1)%Z
                    else (Z.of_nat (length playlist) - 1)%Z in
    Some newIndex.

Definition handleNext {A} (playlist : list A) (currentIndex : Z) : option Z :=
  if (length playlist =? 0)%nat then None
  else
    let newIndex := if (currentIndex <? Z.of_nat (length playlist) - 1)%Z
                    then (currentIndex + 1)%Z
                    else 0%Z in
    Some newIndex.

End AudioPlayer.

(** ** Audio processing utilities, [audioUtils] *)

Module audioUtils.

Section Arithmetic.

(** [a * b] and [a / b] as the platform computes them on doubles. *)
Variables times divided_by : JS.number -> JS.number -> JS.number.

(** The loop of [getDominantFrequency] from index [i] on, over the
    bytes of the array. *)
Fixpoint dominant_loop (frequencyData : list Z) (i maxIndex : nat) (maxValue : Z) : nat :=
  match frequencyData with
  | [] => maxIndex
  | x :: rest =>
      if (x >? maxValue)%Z then dominant_loop rest (S i) i x
      else dominant_loop rest (S i) maxIndex maxValue
  end.

Definition of_nat (n : nat) : JS.number := JS.Fin (inject_Z (Z.of_nat n)).

Definition getDominantFrequency (frequencyData : list Z) (sampleRate : JS.number)
  : JS.number :=
  let maxIndex := dominant_loop frequencyData 0 0 0 in
  divided_by (times (of_nat maxIndex) sampleRate)
             (of_nat (length frequencyData * 2)).

End Arithmetic.

End audioUtils.

(** ** A reference JSON codec

    The service is written against the [JSON.Codec] interface; this is an
    executable instance of it, used to run the service on concrete stores.
    It writes the compact text of [JSON.stringify] and reads it back,
    white space allowed; numbers are read without exponent part. *)

Module JSONText.

Import JSON.
Local Open Scope char_scope.
Local Open Scope list_scope.

(** The double quote character. *)
Abbreviation QUOTE := (Ascii false true false false false true false false).

Definition chars (s : string) : list ascii := list_ascii_of_string s.

Definition hex_digit (n : nat) : ascii :=
  nth n (chars "0123456789abcdef") "0".

Definition print_char (c : ascii) : list ascii :=
  if Ascii.eqb c QUOTE then ["\"; QUOTE]
  else if Ascii.eqb c "\" then ["\"; "\"]
  else if Ascii.eqb c "010" then ["\"; "n"]
  else if Ascii.eqb c "009" then ["\"; "t"]
  else if Ascii.eqb c "013" then ["\"; "r"]
  else if Ascii.eqb c "008" then ["\"; "b"]
  else if Ascii.eqb c "012" then ["\"; "f"]
  else if (nat_of_ascii c <? 32)%nat then
    ["\"; "u"; "0"; "0"; hex_digit (nat_of_ascii c / 16); hex_digit (nat_of_ascii c mod 16)]
  else [c].

Definition print_string (s : string) : list ascii :=
  QUOTE :: flat_map print_char (chars s) ++ [QUOTE].

(** The digits of [r / den] after the point, at most [fuel] of them. *)
Fixpoint print_fraction (fuel : nat) (r den : Z) : list ascii :=
  match fuel with
  | O => []
  | S fuel' =>
      if (r =? 0)%Z then []
      else ascii_of_nat (48 + Z.to_nat (10 * r / den))
             :: print_fraction fuel' (10 * r mod den)%Z den
  end.

Definition print_number (n : JS.number) : list ascii :=
  match n with
  | JS.Fin q =>
      let q := Qred q in
      let num := Qnum q in
      let den := Z.pos (Qden q) in
      let int_part := chars (pretty (Z.abs num / den)%Z) in
      let fraction := print_fraction 20 (Z.abs num mod den) den in
      (if (num <? 0)%Z then ["-"] else [])
        ++ int_part
        ++ (match fraction with [] => [] | _ => "." :: fraction end)
  | _ => chars "null"
  end.

Fixpoint join (sep : ascii) (parts : list (list ascii)) : list ascii :=
  match parts with
  | [] => []
  | [p] => p
  | p :: rest => p ++ sep :: join sep rest
  end.

Fixpoint print (v : value) : list ascii :=
  match v with
  | Null => chars "null"
  | Bool true => chars "true"
  | Bool false => chars "false"
  | Num n => print_number n
  | Str s => print_string s
  | Arr elements => "[" :: join "," (map print elements) ++ ["]"]
  | Obj members =>
      "{" :: join "," (map (fun kv => print_string (fst kv) ++ ":" :: print (snd kv))
                           members) ++ ["}"]
  end.

Definition is_space (c : ascii) : bool :=
  Ascii.eqb c " " || Ascii.eqb c "009" || Ascii.eqb c "010" || Ascii.eqb c "013".

Fixpoint skip_space (l : list ascii) : list ascii :=
  match l with
  | c :: l' => if is_space c then skip_space l' else l
  | [] => []
  end.

Definition digit_value (c : ascii) : option Z :=
  let n := nat_of_ascii c in
  if (48 <=? n)%nat && (n <=? 57)%nat then Some (Z.of_nat (n - 48)) else None.

Definition hex_value (c : ascii) : option nat :=
  let n := nat_of_ascii c in
  if (48 <=? n)%nat && (n <=? 57)%nat then Some (n - 48)%nat
  else if (97 <=? n)%nat && (n <=? 102)%nat then Some (n - 87)%nat
  else if (65 <=? n)%nat && (n <=? 70)%nat then Some (n - 55)%nat
  else None.

(** The digits at the head of [l]: their value after [acc], how many
    they are, and the rest of [l]. *)
Fixpoint read_digits (acc : Z) (count : nat) (l : list ascii) : Z * nat * list ascii :=
  match l with
  | c :: l' =>
      match digit_value c with
      | Some d => read_digits (10 * acc + d) (S count) l'
      | None => (acc, count, l)
      end
  | [] => (acc, count, [])
  end.

Definition read_number (l : list ascii) : option (JS.number * list ascii) :=
  let '(negative, l) := match l with "-" :: l' => (true, l') | _ => (false, l) end in
  match read_digits 0 0 l with
  | (_, O, _) => None
  | (int_part, _, "." :: l') =>
      match read_digits int_part 0 l' with
      | (_, O, _) => None
      | (digits, k, rest) =>
          let q := Qred (Qmake digits (Pos.of_nat (10 ^ k))) in
          Some (JS.Fin (if negative then Qopp q else q), rest)
      end
  | (int_part, _, rest) =>
      Some (JS.Fin (inject_Z (if negative then - int_part else int_part)), rest)
  end.

(** The characters of a string literal up to its closing quote. *)
Fixpoint read_string (fuel : nat) (l : list ascii) : option (list ascii * list ascii) :=
  match fuel with
  | O => None
  | S fuel' =>
      match l with
      | QUOTE :: rest => Some ([], rest)
      | "\" :: "u" :: a :: b :: c :: d :: l' =>
          match hex_value a, hex_value b, hex_value c, hex_value d with
          | Some O, Some O, Some x, Some y =>
              match read_string fuel' l' with
              | Some (s, rest) => Some (ascii_of_nat (16 * x + y) :: s, rest)
              | None => None
              end
          | _, _, _, _ => None
          end
      | "\" :: e :: l' =>
          let decoded :=
            if Ascii.eqb e "n" then Some "010"
            else if Ascii.eqb e "t" then Some "009"
            else if Ascii.eqb e "r" then Some "013"
            else if Ascii.eqb e "b" then Some "008"
            else if Ascii.eqb e "f" then Some "012"
            else if Ascii.eqb e QUOTE || Ascii.eqb e "\" || Ascii.eqb e "/" then Some e
            else None in
          match decoded, read_string fuel' l' with
          | Some c, Some (s, rest) => Some (c :: s, rest)
          | _, _ => None
          end
      | c :: l' =>
          if (nat_of_ascii c <? 32)%nat then None
          else match read_string fuel' l' with
               | Some (s, rest) => Some (c :: s, rest)
               | None => None
               end
      | [] => None
      end
  end.

(** [l] without the leading [word], if it starts with it. *)
Fixpoint read_word (word l : list ascii) : option (list ascii) :=
  match word, l with
  | [], _ => Some l
  | a :: word', b :: l' => if Ascii.eqb a b then read_word word' l' else None
  | _ :: _, [] => None
  end.

Definition read_literal (word : list ascii) (v : value) (l : list ascii)
  : option (value * list ascii) :=
  match read_word word l with
  | Some rest => Some (v, rest)
  | None => None
  end.

Fixpoint read_value (fuel : nat) (l : list ascii) : option (value * list ascii) :=
  match fuel with
  | O => None
  | S fuel' =>
      match skip_space l with
      | ("n" :: _) as l' => read_literal (chars "null") Null l'
      | ("t" :: _) as l' => read_literal (chars "true") (Bool true) l'
      | ("f" :: _) as l' => read_literal (chars "false") (Bool false) l'
      | QUOTE :: l' =>
          match read_string (S (length l')) l' with
          | Some (s, rest) => Some (Str (string_of_list_ascii s), rest)
          | None => None
          end
      | "[" :: l' =>
          match skip_space l' with
          | "]" :: rest => Some (Arr [], rest)
          | l'' =>
              match read_elements fuel' l'' with
              | Some (elements, rest) => Some (Arr elements, rest)
              | None => None
              end
          end
      | "{" :: l' =>
          match skip_space l' with
          | "}" :: rest => Some (Obj [], rest)
          | l'' =>
              match read_members fuel' l'' with
              | Some (members, rest) => Some (Obj members, rest)
              | None => None
              end
          end
      | l' =>
          match read_number l' with
          | Some (n, rest) => Some (Num n, rest)
          | None => None
          end
      end
  end
with read_elements (fuel : nat) (l : list ascii) : option (list value * list ascii) :=
  match fuel with
  | O => None
  | S fuel' =>
      match read_value fuel' l with
      | Some (v, rest) =>
          match skip_space rest with
          | "," :: rest' =>
              match read_elements fuel' rest' with
              | Some (vs, rest'') => Some (v :: vs, rest'')
              | None => None
              end
          | "]" :: rest' => Some ([v], rest')
          | _ => None
          end
      | None => None
      end
  end
with read_members (fuel : nat) (l : list ascii)
  : option (list (string * value) * list ascii) :=
  match fuel with
  | O => None
  | S fuel' =>
      match skip_space l with
      | QUOTE :: l' =>
          match read_string (S (length l')) l' with
          | Some (key, rest) =>
              match skip_space rest with
              | ":" :: rest' =>
                  match read_value fuel' rest' with
                  | Some (v, rest'') =>
                      match skip_space rest'' with
                      | "," :: rest3 =>
                          match read_members fuel' rest3 with
                          | Some (ms, rest4) =>
                              Some ((string_of_list_ascii key, v) :: ms, rest4)
                          | None => None
                          end
                      | "}" :: rest3 => Some ([(string_of_list_ascii key, v)], rest3)
                      | _ => None
                      end
                  | None => None
                  end
              | _ => None
              end
          | None => None
          end
      | _ => None
      end
  end.

Definition read (s : string) : option value :=
  let l := chars s in
  match read_value (S (length l)) l with
  | Some (v, rest) => match skip_space rest with [] => Some v | _ => None end
  | None => None
  end.

#[export] Instance codec : Codec :=
  {| parse := read; stringify := fun v => string_of_list_ascii (print v) |}.

End JSONText.

(** ** Sessions of the player used in the properties below *)

Module Session.

Import Eff useAudioPlayer.
Local Open Scope eff_scope.

(** The volume operations a component can call on the hook. *)
Inductive operation : Type :=
| ChangeVolume (v : Q)
| ToggleMute
| LoadTrack (track : option Track).

Definition step (o : operation) : M Hook unit :=
  match o with
  | ChangeVolume v => changeVolume (JS.Fin v)
  | ToggleMute => toggleMute
  | LoadTrack track => call_loadTrack track
  end.

Fixpoint run (ops : list operation) : M Hook unit :=
  match ops with
  | [] => ret tt
  | o :: ops' => step o ;; run ops'
  end.

(** A finite number between 0 and 1. *)
Definition in_unit_interval (n : JS.number) : Prop :=
  match n with
  | JS.Fin q => (0 <= q)%Q /\ (q <= 1)%Q
  | _ => False
  end.

(** The hook once its mount effect has run. *)
Definition mounted : Hook := mount unmounted.

(** The state a computation leaves. *)
Definition after {A} (m : M Hook A) (h : Hook) : Hook := snd (m h).

Definition song : Track :=
  {| id := "t1"; name := "song"; url := Some "data:audio/mpeg;base64,AAAAAA==" |}.

(** A track of 180 seconds is loaded and playing. *)
Definition playing : Hook :=
  after (call_loadTrack (Some song) ;;
         loadedmetadata (JS.Fin 180) ;;
         call_play true) mounted.

(** The same, after the user has pressed the repeat button twice: the
    repeat mode is ['one']. *)
Definition playing_on_repeat_one : Hook :=
  after (toggleRepeat ;; toggleRepeat) playing.

Definition take : Track :=
  {| id := "t2"; name := "take"; url := Some "data:audio/webm;base64,GkXfow==" |}.

(** A recording whose length the browser does not know is loaded and
    playing: its duration is [Infinity]. *)
Definition playing_recording : Hook :=
  after (call_loadTrack (Some take) ;;
         loadedmetadata JS.PosInf ;;
         call_play true) mounted.

End Session.

(** ** Stores, files and notions used in the properties below *)

Module Stores.

Import Eff LocalStorage JSON audioStorage.

Definition usable (ls : LocalStorage.t) : bool :=
  match status ls with Usable => true | _ => false end.

Definition readable (ls : LocalStorage.t) : bool :=
  match status ls with Denied => false | _ => true end.

(** A usable store once the probe of [checkStorageAvailability] has
    run: the probe's key has been written and removed. *)
Definition after_probe (ls : LocalStorage.t) : LocalStorage.t :=
  LocalStorage.mk (delete "__storage_test__" (items ls)) (status ls).

(** What a reader finds under [key]: the parsed text, and [fallback] when
    there is no text, the text is empty or it does not parse. *)
Definition read_or {codec : Codec} (fallback : value) (key : string)
    (ls : LocalStorage.t) : value :=
  match items ls !! key with
  | Some (String c s) =>
      match parse (String c s) with
      | Some v => v
      | None => fallback
      end
  | _ => fallback
  end.

(** The sum of the lengths of the values that are own properties of
    the store. *)
Definition value_lengths (ls : LocalStorage.t) : Z :=
  foldr (fun kv sum => (Z.of_nat (String.length (snd kv)) + sum)%Z) 0%Z (entries ls).

(** The sum of the lengths of all the values of a store. *)
Definition all_value_lengths (ls : LocalStorage.t) : Z :=
  foldr (fun kv sum => (Z.of_nat (String.length (snd kv)) + sum)%Z) 0%Z
        (map_to_list (items ls)).

(** The type or the extension of the file is one of the accepted audio
    formats of [validateAudioFile]. *)
Definition accepted_format (file : File.t) : bool :=
  Text.includes validTypes (File.type file)
  || Text.has_extension ["mp3"; "wav"; "ogg"; "aac"; "m4a"] (File.name file).

(** [JSON.parse] reads back [v] from the text [JSON.stringify] writes
    for it (and that text is not empty). *)
Definition round_trips {codec : Codec} (v : value) : Prop :=
  stringify v <> "" /\ parse (stringify v) = Some v.

(** The record [file] is an object whose [id] is the string [id]. *)
Definition id_is (id : string) (file : value) : bool :=
  match file with
  | Obj members => is_string id (lookup "id" members)
  | _ => false
  end.

Definition empty_store : LocalStorage.t := LocalStorage.mk ∅ Usable.

Definition denied_store : LocalStorage.t := LocalStorage.mk ∅ Denied.

(** A store that takes no more data and holds an (empty) file list. *)
Definition full_store : LocalStorage.t :=
  LocalStorage.mk {[ "player_audio_files" := "[]" ]} Full.

(** A small MP3 file that reads and decodes without error. *)
Definition song_file : File.t :=
  {| File.name := "song.mp3";
     File.type := "audio/mpeg";
     File.size := 4;
     File.lastModified := 1700000000000;
     File.readAsDataURL := Some "data:audio/mpeg;base64,AAAAAA==";
     File.duration := Some (JS.Fin 180) |}.

Definition env0 : Env :=
  {| generatedId := "lq1x2abc4def";
     Date_now := "1700000000000";
     Date_toISOString := "2023-11-14T22:13:20.000Z" |}.

(** The record [saveAudioFile] builds for [song_file] in [env0]. *)
Definition saved_song : value :=
  Obj [("id", Str "lq1x2abc4def");
       ("data", Str "data:audio/mpeg;base64,AAAAAA==");
       ("metadata", Obj [("duration", Num (JS.Fin 180));
                         ("name", Str "song");
                         ("fileName", Str "song.mp3");
                         ("size", Num (JS.Fin 4));
                         ("type", Str "audio/mpeg");
                         ("lastModified", Num (JS.Fin 1700000000000))]);
       ("createdAt", Str "2023-11-14T22:13:20.000Z");
       ("playCount", Num (JS.Fin 0));
       ("lastPlayed", Null)].

Definition record_a : value :=
  Obj [("id", Str "a"); ("data", Str "data:audio/wav;base64,UklGRg==");
       ("playCount", Num (JS.Fin 3)); ("lastPlayed", Null)].

Definition record_b : value :=
  Obj [("id", Str "b"); ("data", Str "data:audio/ogg;base64,T2dnUw==");
       ("playCount", Num (JS.Fin 0)); ("lastPlayed", Null)].

(** A usable store holding the two records above, written by the
    reference codec, and the preferences of another page. *)
Definition library_store : LocalStorage.t :=
  LocalStorage.mk
    {[ "player_audio_files" := @stringify JSONText.codec (Arr [record_a; record_b]);
       "other_page_setting" := "on" ]}
    Usable.

(** A recording whose length the browser does not know (as for the
    output of a media recorder): once its metadata is loaded,
    [audio.duration] is [Infinity]. *)
Definition recording : File.t :=
  {| File.name := "take.webm";
     File.type := "audio/webm";
     File.size := 4;
     File.lastModified := 1700000000000;
     File.readAsDataURL := Some "data:audio/webm;base64,GkXfow==";
     File.duration := Some JS.PosInf |}.



(** A usable store in which an item is kept under the key [length]. *)
Definition store_with_hidden_item : LocalStorage.t :=
  LocalStorage.mk {[ "length" := "12345678"; "a" := "xy" ]} Usable.




End Stores.

(** ** Everything a user or the audio element can do to the player *)

Module Controls.

Import Eff useAudioPlayer.
Local Open Scope eff_scope.

Inductive action : Type :=
| LoadTrack (track : option Track)
| Play (resolves : bool)
| Pause
| TogglePlayPause (resolves : bool)
| SeekTo (time : JS.number)
| ChangeVolume (newVolume : Q)
| ToggleMute
| ToggleShuffle
| ToggleRepeat
| SkipForward (seconds : option JS.number)
| SkipBackward (seconds : option JS.number)
| Reset
| LoadStart
| LoadedMetadata (d : JS.number)
| CanPlay
| ErrorEvent
| Ended.

Section Arithmetic.

Variables plus minus : JS.number -> JS.number -> JS.number.

Definition perform (a : action) : M Hook unit :=
  match a with
  | LoadTrack track => call_loadTrack track
  | Play resolves => call_play resolves
  | Pause => pause
  | TogglePlayPause resolves => call_togglePlayPause resolves
  | SeekTo time => call_seekTo time
  | ChangeVolume newVolume => changeVolume (JS.Fin newVolume)
  | ToggleMute => toggleMute
  | ToggleShuffle => toggleShuffle
  | ToggleRepeat => toggleRepeat
  | SkipForward seconds => call_skipForward plus seconds
  | SkipBackward seconds => call_skipBackward minus seconds
  | Reset => reset
  | LoadStart => loadstart
  | LoadedMetadata d => loadedmetadata d
  | CanPlay => canplay
  | ErrorEvent => error_event
  | Ended => ended
  end.

(** The hook after a sequence of actions, each one a call made by an
    event handler of its own, through the callbacks of the render that
    is current at that time, or an event of the element: an exception
    ends the action that raised it, not the session. *)
Definition session (actions : list action) (h : Hook) : Hook :=
  fold_left (fun h a => snd (perform a h)) actions h.

End Arithmetic.

(** A finite number between 0 and [d]. *)
Definition within (d : Q) (n : JS.number) : Prop :=
  match n with
  | JS.Fin q => (0 <= q)%Q /\ (q <= d)%Q
  | _ => False
  end.

(** What a seek on [h] may come to when the duration is [d]: the call
    returns, and either nothing has changed or the position of the state
    and of the element is one and the same time between 0 and [d]. *)
Definition sought (d : Q) (h : Hook) (r : JS.result unit * Hook) : Prop :=
  fst r = JS.Ok tt
  /\ (snd r = h
      \/ (within d (currentTime (state (snd r)))
          /\ option_map Audio.currentTime (audioRef (snd r))
             = Some (currentTime (state (snd r)))
          /\ duration (state (snd r)) = duration (state h))).

(** The computation leaves the volume alone, in the state and on the
    element, and the listeners as they are. *)
Definition keeps_volume {A} (m : M Hook A) : Prop :=
  forall h,
    listenerRender (snd (m h)) = listenerRender h
    /\ volume (state (snd (m h))) = volume (state h)
    /\ option_map Audio.volume (audioRef (snd (m h)))
       = option_map Audio.volume (audioRef h).

(** The hook is mounted with the listeners of its first render, and the
    volume of the state is the volume of the element, between 0 and 1. *)
Definition steady (h : Hook) : Prop :=
  listenerRender h = Some initialState
  /\ Session.in_unit_interval (volume (state h))
  /\ option_map Audio.volume (audioRef h) = Some (volume (state h)).

End Controls.

(** ** More stores and values used in the properties below *)

Module Samples.

Import LocalStorage JSON audioStorage Stores.

(** The members of [v] when it is an object. *)
Definition members_of (v : value) : list (string * value) :=
  match v with Obj members => members | _ => [] end.

(** No key occurs twice. *)
Definition distinct_keys (members : list (string * value)) : Prop :=
  NoDup (map fst members).

(** The sum and the difference of two numbers, for finite operands
    whose sum or difference is a double. *)
Definition exact_plus (a b : JS.number) : JS.number :=
  match a, b with
  | JS.NaN, _ | _, JS.NaN => JS.NaN
  | JS.PosInf, JS.NegInf | JS.NegInf, JS.PosInf => JS.NaN
  | JS.PosInf, _ | _, JS.PosInf => JS.PosInf
  | JS.NegInf, _ | _, JS.NegInf => JS.NegInf
  | JS.Fin x, JS.Fin y => JS.Fin (x + y)
  end.

Definition exact_minus (a b : JS.number) : JS.number :=
  match a, b with
  | JS.NaN, _ | _, JS.NaN => JS.NaN
  | JS.PosInf, JS.PosInf | JS.NegInf, JS.NegInf => JS.NaN
  | JS.PosInf, _ | _, JS.NegInf => JS.PosInf
  | JS.NegInf, _ | _, JS.PosInf => JS.NegInf
  | JS.Fin x, JS.Fin y => JS.Fin (x - y)
  end.

Definition preferences_store : LocalStorage.t :=
  LocalStorage.mk
    {[ "player_user_preferences" :=
         @stringify JSONText.codec
           (Obj [("volume", Num (JS.Fin 1)); ("shuffle", Bool true);
                 ("repeat", Str "all"); ("theme", Str "light")]);
       "player_audio_files" := @stringify JSONText.codec (Arr [record_a; record_b]);
       "other_page_setting" := "on" ]}
    Usable.

End Samples.

(** * Properties *)

(** ** Numbers *)

Lemma Math_min_Fin (a b : Q) :
  JS.Math_min (JS.Fin a) (JS.Fin b) = JS.Fin (if Qle_bool a b then a else b).
Proof.
  unfold JS.Math_min, JS.lt; simpl.
  destruct (Qle_bool a b); reflexivity.
Qed.

Lemma Math_max_Fin (a b : Q) :
  JS.Math_max (JS.Fin a) (JS.Fin b) = JS.Fin (if Qle_bool b a then a else b).
Proof.
  unfold JS.Math_max, JS.lt; simpl.
  destruct (Qle_bool b a); reflexivity.
Qed.

(** [Math.max(0, Math.min(1, v))] on a finite [v], case by case. *)
Lemma clamp_unit_cases (v : Q) :
  exists q, JS.Math_max (JS.Fin 0) (JS.Math_min (JS.Fin 1) (JS.Fin v)) = JS.Fin q
            /\ (0 <= q)%Q /\ (q <= 1)%Q
            /\ ((0 <= v)%Q -> (v <= 1)%Q -> q == v)
            /\ ((v < 0)%Q -> q = 0%Q)
            /\ ((1 < v)%Q -> q = 1%Q).
Proof.
  rewrite Math_min_Fin.
  destruct (Qle_bool 1 v) eqn:E1.
  - apply Qle_bool_iff in E1.
    rewrite Math_max_Fin. simpl.
    exists 1%Q. repeat split; try easy.
    + intros _ H. apply Qle_antisym; assumption.
    + intros H. exfalso. apply (Qlt_irrefl 0).
      apply Qlt_trans with 1%Q; [reflexivity|].
      apply Qle_lt_trans with v; assumption.
  - assert (Hv : (v < 1)%Q).
    { apply Qnot_le_lt. intros H. apply Qle_bool_iff in H. congruence. }
    rewrite Math_max_Fin.
    destruct (Qle_bool v 0) eqn:E0.
    + apply Qle_bool_iff in E0.
      exists 0%Q. repeat split; try easy.
      * intros H _. apply Qle_antisym; assumption.
      * intros H. exfalso. apply (Qlt_irrefl 1).
        apply Qlt_trans with v; assumption.
    + assert (H0 : (0 < v)%Q).
      { apply Qnot_le_lt. intros H. apply Qle_bool_iff in H. congruence. }
      exists v. repeat split.
      * apply Qlt_le_weak; assumption.
      * apply Qlt_le_weak; assumption.
      * intros H. exfalso. apply (Qlt_irrefl v).
        apply Qlt_trans with 0%Q; assumption.
      * intros H. exfalso. apply (Qlt_irrefl v).
        apply Qlt_trans with 1%Q; assumption.
Qed.

Lemma clamp_in_unit_interval (v : Q) :
  Session.in_unit_interval
    (JS.Math_max (JS.Fin 0) (JS.Math_min (JS.Fin 1) (JS.Fin v))).
Proof.
  destruct (clamp_unit_cases v) as (q & -> & H0 & H1 & _).
  split; assumption.
Qed.

(** ** The player hook *)

Section PlayerProperties.

Import Eff useAudioPlayer Session.
Local Open Scope eff_scope.

Lemma nextRepeatMode_other (prev : string) :
  prev <> "none" -> prev <> "all" -> prev <> "one" -> nextRepeatMode prev = "none".
Proof.
  intros Hn Ha Ho. unfold nextRepeatMode.
  apply String.eqb_neq in Hn, Ha, Ho.
  rewrite Hn, Ha, Ho. reflexivity.
Qed.

(** C5. [toggleRepeat] maps the repeat mode 'none' to 'all', 'all' to
    'one', 'one' to 'none' and any other value to 'none'; so from any of
    the three modes three calls restore the mode, and two calls of
    [toggleShuffle] restore the shuffle flag.  Neither call throws. *)
Theorem toggleRepeat_cycle_toggleShuffle_involution :
  nextRepeatMode "none" = "all"
  /\ nextRepeatMode "all" = "one"
  /\ nextRepeatMode "one" = "none"
  /\ (forall prev, prev <> "none" -> prev <> "all" -> prev <> "one" ->
        nextRepeatMode prev = "none")
  /\ (forall h, fst (toggleRepeat h) = JS.Ok tt
                /\ repeatMode (state (after toggleRepeat h))
                   = nextRepeatMode (repeatMode (state h)))
  /\ (forall h, In (repeatMode (state h)) ["none"; "all"; "one"] ->
        repeatMode (state (after (toggleRepeat ;; toggleRepeat ;; toggleRepeat) h))
        = repeatMode (state h))
  /\ (forall h, fst (toggleShuffle h) = JS.Ok tt
                /\ isShuffling (state (after (toggleShuffle ;; toggleShuffle) h))
                   = isShuffling (state h)).
Proof.
  repeat split; try reflexivity.
  - apply nextRepeatMode_other.
  - intros h Hin. cbn in *.
    destruct Hin as [<- | [<- | [<- | []]]]; reflexivity.
  - cbn. apply negb_involutive.
Qed.

(** Three presses of the repeat button starting in mode 'one'. *)
Lemma toggleRepeat_cycle_toggleShuffle_involution_witness :
  repeatMode (state (after (toggleRepeat ;; toggleRepeat ;; toggleRepeat)
                       playing_on_repeat_one))
  = "one".
Proof.
  exact (proj1 (proj2 (proj2 (proj2 (proj2 (proj2
           toggleRepeat_cycle_toggleShuffle_involution)))))
           playing_on_repeat_one
           (or_intror (or_intror (or_introl eq_refl)))).
Defined.

(** What [toggleMute] does when the audio element exists. *)
Lemma toggleMute_mounted (s : State) (a : Audio.t) (l : option State) :
  let v := if JS.gt (Audio.volume a) (JS.Fin 0) then JS.Fin 0 else JS.Fin 1 in
  toggleMute (mkHook s (Some a) l)
  = (JS.Ok tt,
     mkHook (mkState (currentTrack s) (isPlaying s) (currentTime s) (duration s) v
                     (isLoading s) (error s) (isShuffling s) (repeatMode s))
            (Some (Audio.mk (Audio.src a) (Audio.preload a) v (Audio.currentTime a)
                            (Audio.duration a) (Audio.paused a)))
            l).
Proof.
  unfold toggleMute, bind, audioRef_current. cbn -[JS.gt].
  destruct (JS.gt (Audio.volume a) (JS.Fin 0)); reflexivity.
Qed.

(** C9. With the audio element in place, [toggleMute] sets the volume
    (of the element and of the state) to 0 if the element's volume is
    greater than 0 and to 1 otherwise; hence from an element volume [v]
    with [0 < v < 1] two calls end at volume 1, which is not [v]. *)
Theorem toggleMute_does_not_restore_volume (h : Hook) (a : Audio.t) :
  audioRef h = Some a ->
  (let v' := if JS.gt (Audio.volume a) (JS.Fin 0) then JS.Fin 0 else JS.Fin 1 in
   fst (toggleMute h) = JS.Ok tt
   /\ volume (state (after toggleMute h)) = v'
   /\ option_map Audio.volume (audioRef (after toggleMute h)) = Some v')
  /\ (forall v : Q,
        Audio.volume a = JS.Fin v -> (0 < v)%Q -> (v < 1)%Q ->
        fst ((toggleMute ;; toggleMute) h) = JS.Ok tt
        /\ volume (state (after (toggleMute ;; toggleMute) h)) = JS.Fin 1
        /\ option_map Audio.volume (audioRef (after (toggleMute ;; toggleMute) h))
           = Some (JS.Fin 1)
        /\ ~ (v == 1)%Q).
Proof.
  intros Ha. destruct h as [s ar l]. simpl in Ha. subst ar. split.
  - unfold after. rewrite toggleMute_mounted. repeat split.
  - intros v Hv Hpos Hlt.
    assert (Hgt : JS.gt (Audio.volume a) (JS.Fin 0) = true).
    { rewrite Hv. unfold JS.gt, JS.lt.
      destruct (Qle_bool v 0) eqn:E; [|reflexivity].
      apply Qle_bool_iff in E. exfalso.
      apply (Qlt_irrefl v). apply Qle_lt_trans with 0%Q; assumption. }
    unfold after, bind. rewrite toggleMute_mounted, Hgt.
    rewrite toggleMute_mounted. cbn. repeat split.
    intros E. rewrite E in Hlt. exact (Qlt_irrefl 1 Hlt).
Qed.

(** A hook with its audio element at volume 1/2. *)
Lemma toggleMute_does_not_restore_volume_witness :
  volume (state (after (toggleMute ;; toggleMute)
                   (after (changeVolume (JS.Fin (1 # 2))) mounted)))
  = JS.Fin 1.
Proof.
  refine (proj1 (proj2 (proj2 (toggleMute_does_not_restore_volume
                          (after (changeVolume (JS.Fin (1 # 2))) mounted)
                          (Audio.mk "" "metadata" (JS.Fin (1 # 2)) (JS.Fin 0) JS.NaN true)
                          eq_refl) (1 # 2) eq_refl _ _))); reflexivity.
Defined.

(** What [seekTo] does when the audio element exists and the time is not
    NaN, by the value it computes. *)
Lemma seekTo_mounted (s : State) (a : Audio.t) (l : option State)
    (duration' t : JS.number) :
  JS.isNaN t = false ->
  let seekTime := JS.Math_max (JS.Fin 0) (JS.Math_min t duration') in
  seekTo duration' t (mkHook s (Some a) l)
  = match seekTime with
    | JS.Fin _ =>
        (JS.Ok tt,
         mkHook (mkState (currentTrack s) (isPlaying s) seekTime (duration s) (volume s)
                         (isLoading s) (error s) (isShuffling s) (repeatMode s))
                (Some (Audio.mk (Audio.src a) (Audio.preload a) (Audio.volume a) seekTime
                                (Audio.duration a) (Audio.paused a)))
                l)
    | _ => (JS.Throw "TypeError: The provided double value is non-finite.",
            mkHook s (Some a) l)
    end.
Proof.
  intros Ht seekTime. unfold seekTo, bind, audioRef_current. cbn. rewrite Ht. cbn.
  fold seekTime. destruct seekTime; reflexivity.
Qed.

(** C10, as the code has it. With the audio element in place and [t]
    not NaN, [seekTo(t)] computes [Math.max(0, Math.min(t, duration))];
    when that value is finite it becomes the element's [currentTime] and
    the state's [currentTime], nothing else changes and the call
    returns; it is finite whenever [t] is finite and [duration] is not
    NaN.  When the value is not finite the assignment to the element
    throws and nothing changes.  For NaN the call returns and nothing
    changes. *)
Theorem seekTo_clamps_finite_times (h : Hook) (a : Audio.t) (t : JS.number) :
  audioRef h = Some a ->
  let seekTime := JS.Math_max (JS.Fin 0) (JS.Math_min t (duration (state h))) in
  (JS.isNaN t = true -> call_seekTo t h = (JS.Ok tt, h))
  /\ (forall q, JS.isNaN t = false -> seekTime = JS.Fin q ->
        fst (call_seekTo t h) = JS.Ok tt
        /\ option_map Audio.currentTime (audioRef (after (call_seekTo t) h)) = Some seekTime
        /\ currentTime (state (after (call_seekTo t) h)) = seekTime
        /\ after (call_seekTo t) h
           = mkHook (mkState (currentTrack (state h)) (isPlaying (state h)) seekTime
                             (duration (state h)) (volume (state h)) (isLoading (state h))
                             (error (state h)) (isShuffling (state h))
                             (repeatMode (state h)))
                    (Some (Audio.mk (Audio.src a) (Audio.preload a) (Audio.volume a)
                                    seekTime (Audio.duration a) (Audio.paused a)))
                    (listenerRender h))
  /\ (JS.isNaN t = false ->
      (exists q, seekTime = JS.Fin q)
      \/ duration (state h) = JS.NaN
      \/ (t = JS.PosInf /\ duration (state h) = JS.PosInf))
  /\ (JS.isNaN t = false -> (forall q, seekTime <> JS.Fin q) ->
        exists message, call_seekTo t h = (JS.Throw message, h)).
Proof.
  intros Ha seekTime. destruct h as [s ar l]. simpl in Ha. subst ar.
  unfold call_seekTo, after. cbn [state duration] in *.
  split; [|split; [|split]].
  - intros Ht. unfold seekTo, bind, audioRef_current. cbn. rewrite Ht. reflexivity.
  - intros q Ht Hq. rewrite seekTo_mounted by assumption. cbv zeta. fold seekTime.
    rewrite Hq. repeat split.
  - intros Ht. unfold seekTime.
    destruct t as [| |x|]; try discriminate;
      destruct (duration s) as [| |d|];
      try (right; left; reflexivity);
      try (right; right; split; reflexivity);
      left; unfold JS.Math_max, JS.Math_min, JS.lt; cbn;
      repeat (match goal with
              | |- context [Qle_bool ?a ?b] => destruct (Qle_bool a b)
              end; cbn);
      eexists; reflexivity.
  - intros Ht Hinf. rewrite seekTo_mounted by assumption. cbv zeta. fold seekTime.
    destruct seekTime as [| |q|]; try (eexists; reflexivity).
    exfalso. exact (Hinf q eq_refl).
Qed.

(** Seeking to second 200 of a track of 180 seconds. *)
Lemma seekTo_clamps_finite_times_witness :
  currentTime (state (after (call_seekTo (JS.Fin 200)) playing_on_repeat_one)) = JS.Fin 180
  /\ call_seekTo JS.NaN playing_on_repeat_one = (JS.Ok tt, playing_on_repeat_one).
Proof.
  pose proof (seekTo_clamps_finite_times playing_on_repeat_one
                (Audio.mk "data:audio/mpeg;base64,AAAAAA==" "metadata" (JS.Fin 1)
                          (JS.Fin 0) (JS.Fin 180) false)
                (JS.Fin 200) eq_refl) as (_ & H & _).
  pose proof (seekTo_clamps_finite_times playing_on_repeat_one
                (Audio.mk "data:audio/mpeg;base64,AAAAAA==" "metadata" (JS.Fin 1)
                          (JS.Fin 0) (JS.Fin 180) false)
                JS.NaN eq_refl) as (H' & _).
  split.
  - exact (proj1 (proj2 (proj2 (H 180%Q eq_refl eq_refl)))).
  - exact (H' eq_refl).
Defined.

(** C10 as stated fails for a time that is not NaN: with a recording of
    unknown length loaded ([duration] is [Infinity]), [seekTo(Infinity)]
    throws at the assignment to [audio.currentTime] and the state's
    [currentTime] stays 0. *)
Lemma seekTo_infinity_throws :
  JS.isNaN JS.PosInf = false
  /\ duration (state playing_recording) = JS.PosInf
  /\ JS.Math_max (JS.Fin 0) (JS.Math_min JS.PosInf (duration (state playing_recording)))
     = JS.PosInf
  /\ call_seekTo JS.PosInf playing_recording
     = (JS.Throw "TypeError: The provided double value is non-finite.", playing_recording)
  /\ currentTime (state playing_recording) = JS.Fin 0.
Proof. repeat split. Qed.

Lemma set_volume_in_range (q : Q) (a : Audio.t) :
  (0 <= q)%Q -> (q <= 1)%Q ->
  Audio.set_volume (JS.Fin q) a
  = JS.Ok (Audio.mk (Audio.src a) (Audio.preload a) (JS.Fin q) (Audio.currentTime a)
                    (Audio.duration a) (Audio.paused a)).
Proof.
  intros H0 H1. unfold Audio.set_volume.
  apply Qle_bool_iff in H0, H1. rewrite H0, H1. reflexivity.
Qed.

Lemma changeVolume_finite (v : Q) (h : Hook) :
  fst (changeVolume (JS.Fin v) h) = JS.Ok tt
  /\ volume (state (after (changeVolume (JS.Fin v)) h))
     = JS.Math_max (JS.Fin 0) (JS.Math_min (JS.Fin 1) (JS.Fin v))
  /\ listenerRender (after (changeVolume (JS.Fin v)) h) = listenerRender h.
Proof.
  destruct (clamp_unit_cases v) as (q & Hq & H0 & H1 & _).
  destruct h as [s [a|] l]; unfold after, changeVolume, bind, audioRef_current;
    cbn -[JS.Math_max JS.Math_min]; rewrite Hq.
  - unfold on_audio. cbn -[Audio.set_volume].
    rewrite set_volume_in_range by assumption. repeat split.
  - repeat split.
Qed.

Lemma toggleMute_volume (h : Hook) :
  fst (toggleMute h) = JS.Ok tt
  /\ (volume (state (after toggleMute h)) = volume (state h)
      \/ volume (state (after toggleMute h)) = JS.Fin 0
      \/ volume (state (after toggleMute h)) = JS.Fin 1)
  /\ listenerRender (after toggleMute h) = listenerRender h.
Proof.
  destruct h as [s [a|] l].
  - unfold after. rewrite toggleMute_mounted. cbn -[JS.gt].
    destruct (JS.gt (Audio.volume a) (JS.Fin 0)); auto.
  - repeat split. left. reflexivity.
Qed.

Lemma loadTrack_volume (q : Q) (track : option Track) (h : Hook) :
  (0 <= q)%Q -> (q <= 1)%Q ->
  fst (loadTrack (JS.Fin q) track h) = JS.Ok tt
  /\ volume (state (after (loadTrack (JS.Fin q) track) h)) = volume (state h)
  /\ listenerRender (after (loadTrack (JS.Fin q) track) h) = listenerRender h.
Proof.
  intros H0 H1. unfold after, loadTrack.
  destruct track as [[i n [[|c u]|]]|]; try (repeat split; fail).
  destruct h as [s [a|] l]; unfold bind, audioRef_current, on_audio;
    cbn -[Audio.set_volume]; [|repeat split].
  rewrite set_volume_in_range by assumption. repeat split.
Qed.

Lemma step_keeps_volume_in_range (o : operation) (h : Hook) :
  in_unit_interval (volume (state h)) ->
  fst (step o h) = JS.Ok tt
  /\ in_unit_interval (volume (state (after (step o) h)))
  /\ listenerRender (after (step o) h) = listenerRender h.
Proof.
  intros Hin. destruct o as [v| |track]; simpl step.
  - destruct (changeVolume_finite v h) as (Hok & Hv & Hl).
    rewrite Hv. repeat split; try assumption.
    apply (clamp_in_unit_interval v).
  - destruct (toggleMute_volume h) as (Hok & Hv & Hl).
    repeat split; try assumption.
    destruct Hv as [-> | [-> | ->]];
      [assumption | split; discriminate | split; discriminate].
  - unfold call_loadTrack, after.
    destruct (volume (state h)) as [| |q|] eqn:Hq; try contradiction.
    destruct Hin as [H0 H1].
    destruct (loadTrack_volume q track h H0 H1) as (Hok & Hv & Hl).
    unfold after in Hv, Hl. rewrite Hv, Hq. repeat split; assumption.
Qed.

Lemma run_keeps_volume_in_range (ops : list operation) :
  forall h, in_unit_interval (volume (state h)) ->
            fst (run ops h) = JS.Ok tt
            /\ in_unit_interval (volume (state (after (run ops) h)))
            /\ listenerRender (after (run ops) h) = listenerRender h.
Proof.
  induction ops as [|o ops IH]; intros h Hin.
  - repeat split. assumption.
  - destruct (step_keeps_volume_in_range o h Hin) as (Hok & Hin' & Hl).
    destruct (IH _ Hin') as (Hok' & Hin'' & Hl').
    unfold after in *. simpl run. unfold bind.
    destruct (step o h) as [[[]|e] h']; simpl in Hok; [|discriminate].
    simpl in *. repeat split; try assumption. congruence.
Qed.

(** C7. From the initial volume 1, any sequence of [changeVolume(v)]
    (any rational [v]), [toggleMute] and [loadTrack] calls runs without
    an exception and leaves a volume state between 0 and 1;
    [changeVolume(v)] sets it to [Math.max(0, Math.min(1, v))], which is
    [v] inside the interval, 0 below it and 1 above it; and
    [AudioContextManager.setVolume] passes the same clamped value to the
    gain node (and does nothing without a gain node). *)
Theorem volume_stays_in_unit_interval :
  (forall ops, fst (run ops mounted) = JS.Ok tt
               /\ in_unit_interval (volume (state (after (run ops) mounted))))
  /\ (forall ops, fst (run ops unmounted) = JS.Ok tt
                  /\ in_unit_interval (volume (state (after (run ops) unmounted))))
  /\ (forall v h,
        fst (changeVolume (JS.Fin v) h) = JS.Ok tt
        /\ volume (state (after (changeVolume (JS.Fin v)) h))
           = JS.Math_max (JS.Fin 0) (JS.Math_min (JS.Fin 1) (JS.Fin v)))
  /\ (forall v, exists q,
        JS.Math_max (JS.Fin 0) (JS.Math_min (JS.Fin 1) (JS.Fin v)) = JS.Fin q
        /\ (0 <= q)%Q /\ (q <= 1)%Q
        /\ ((0 <= v)%Q -> (v <= 1)%Q -> q == v)
        /\ ((v < 0)%Q -> q = 0%Q)
        /\ ((1 < v)%Q -> q = 1%Q))
  /\ (forall v this,
        match AudioContextManager.gainNode this, AudioContextManager.audioContext this with
        | Some g, Some ctx =>
            exists this' g',
              AudioContextManager.setVolume (JS.Fin v) this = JS.Ok this'
              /\ AudioContextManager.gainNode this' = Some g'
              /\ AudioContextManager.setValueAtTime_calls g'
                 = (JS.Math_max (JS.Fin 0) (JS.Math_min (JS.Fin 1) (JS.Fin v)),
                    AudioContextManager.currentTime ctx)
                     :: AudioContextManager.setValueAtTime_calls g
        | Some _, None =>
            exists message,
              AudioContextManager.setVolume (JS.Fin v) this = JS.Throw message
        | None, _ => AudioContextManager.setVolume (JS.Fin v) this = JS.Ok this
        end).
Proof.
  split; [|split; [|split; [|split]]].
  - intros ops.
    destruct (run_keeps_volume_in_range ops mounted) as (H1 & H2 & _);
      [split; discriminate | split; assumption].
  - intros ops.
    destruct (run_keeps_volume_in_range ops unmounted) as (H1 & H2 & _);
      [split; discriminate | split; assumption].
  - intros v h. destruct (changeVolume_finite v h) as (H1 & H2 & _). split; assumption.
  - apply clamp_unit_cases.
  - intros v this. unfold AudioContextManager.setVolume.
    destruct (AudioContextManager.gainNode this) as [g|]; [|reflexivity].
    destruct (AudioContextManager.audioContext this) as [ctx|];
      [|eexists; reflexivity].
    destruct (clamp_unit_cases v) as (q & -> & _).
    eexists _, _. split; [reflexivity|]. split; reflexivity.
Qed.

(** Volume 5, mute, a track, volume -3. *)
Lemma volume_stays_in_unit_interval_witness :
  in_unit_interval
    (volume (state (after (run [ChangeVolume 5; ToggleMute; LoadTrack (Some song);
                                ChangeVolume (-3)]) mounted))).
Proof.
  exact (proj2 (proj1 volume_stays_in_unit_interval
                  [ChangeVolume 5; ToggleMute; LoadTrack (Some song); ChangeVolume (-3)])).
Defined.

(** What [handleTrackEnd] does in a render whose repeat mode is 'one':
    the element is rewound and played, and [isPlaying] is set. *)
Lemma handleTrackEnd_repeat_one (h : Hook) (a : Audio.t) :
  audioRef h = Some a ->
  fst (handleTrackEnd "one" h) = JS.Ok tt
  /\ isPlaying (state (after (handleTrackEnd "one") h)) = true
  /\ audioRef (after (handleTrackEnd "one") h)
     = Some (Audio.mk (Audio.src a) (Audio.preload a) (Audio.volume a) (JS.Fin 0)
                      (Audio.duration a) false).
Proof.
  intros Ha. destruct h as [s ar l]. simpl in Ha. subst ar. repeat split.
Qed.

(** In a render with any other repeat mode it only resets the
    [currentTime] state. *)
Lemma handleTrackEnd_other (repeatMode' : string) :
  repeatMode' <> "one" ->
  handleTrackEnd repeatMode' = setCurrentTime (JS.Fin 0).
Proof.
  intros Hne. unfold handleTrackEnd.
  apply String.eqb_neq in Hne. rewrite Hne. reflexivity.
Qed.

Lemma toggleRepeat_keeps_listener (h : Hook) :
  listenerRender (after toggleRepeat h) = listenerRender h.
Proof. reflexivity. Qed.

(** The [ended] listener was created by the first render, whose repeat
    mode is 'none': whatever the current repeat mode, it stops. *)
Lemma ended_of_first_render (h : Hook) :
  listenerRender h = Some initialState ->
  ended h = (setIsPlaying false ;; setCurrentTime (JS.Fin 0)) h.
Proof.
  intros Hl. unfold ended. rewrite Hl. reflexivity.
Qed.

(** C4, on the code. A track is playing with repeat mode 'one' and ends:
    the hook stops ([isPlaying] false, [currentTime] state 0) and the
    audio element is neither rewound nor played again. *)
Theorem ended_in_repeat_one_stops :
  repeatMode (state playing_on_repeat_one) = "one"
  /\ isPlaying (state playing_on_repeat_one) = true
  /\ fst (ended playing_on_repeat_one) = JS.Ok tt
  /\ isPlaying (state (after ended playing_on_repeat_one)) = false
  /\ currentTime (state (after ended playing_on_repeat_one)) = JS.Fin 0
  /\ repeatMode (state (after ended playing_on_repeat_one)) = "one"
  /\ audioRef (after ended playing_on_repeat_one) = audioRef playing_on_repeat_one.
Proof. repeat split. Qed.

End PlayerProperties.
(** ** The storage service *)

Section StorageProperties.

Import Eff LocalStorage JSON audioStorage Stores.

Context {codec : Codec}.

Lemma checkStorageAvailability_usable (ls : LocalStorage.t) :
  status ls = Usable ->
  checkStorageAvailability ls = (JS.Ok true, after_probe ls).
Proof.
  intros Hs. destruct ls as [m st]. simpl in Hs. subst st.
  unfold checkStorageAvailability, try_catch, bind, setItem, removeItem, after_probe.
  simpl. rewrite delete_insert_eq. reflexivity.
Qed.

Lemma checkStorageAvailability_unusable (ls : LocalStorage.t) :
  status ls <> Usable ->
  checkStorageAvailability ls = (JS.Ok false, ls).
Proof.
  intros Hs. destruct ls as [m st]. simpl in Hs.
  unfold checkStorageAvailability, try_catch, bind, setItem, removeItem.
  destruct st; simpl; try reflexivity. congruence.
Qed.

Lemma usable_true (ls : LocalStorage.t) : usable ls = true <-> status ls = Usable.
Proof. unfold usable. destruct (status ls); split; congruence. Qed.

Lemma usable_false (ls : LocalStorage.t) : usable ls = false <-> status ls <> Usable.
Proof. unfold usable. destruct (status ls); split; congruence. Qed.

Lemma checkStorageAvailability_spec (ls : LocalStorage.t) :
  checkStorageAvailability ls
  = (JS.Ok (usable ls), if usable ls then after_probe ls else ls).
Proof.
  destruct (usable ls) eqn:E.
  - apply checkStorageAvailability_usable, usable_true, E.
  - apply checkStorageAvailability_unusable, usable_false, E.
Qed.

Lemma after_probe_lookup (ls : LocalStorage.t) (key : string) :
  key <> "__storage_test__" -> items (after_probe ls) !! key = items ls !! key.
Proof. intros Hne. simpl. apply lookup_delete_ne. congruence. Qed.

Lemma after_probe_idempotent (ls : LocalStorage.t) :
  after_probe (after_probe ls) = after_probe ls.
Proof. unfold after_probe. simpl. f_equal. apply delete_delete_eq. Qed.

(** [stored ? JSON.parse(stored) : fallback] inside a [try] whose
    handler returns the fallback. *)
Lemma parse_or_caught (fallback : value) (key : string) (ls : LocalStorage.t) :
  readable ls = true ->
  try_catch (stored <- getItem key ;; lift (parse_or fallback stored))%eff
            (fun _ => ret fallback) ls
  = (JS.Ok (read_or fallback key ls), ls).
Proof.
  intros Hr. unfold try_catch, bind, getItem, lift, ret, read_or, parse_or.
  unfold readable in Hr.
  destruct (status ls); try discriminate;
    (destruct (items ls !! key) as [[|c s]|]; [reflexivity| |reflexivity];
     destruct (parse (String c s)); reflexivity).
Qed.

Lemma parse_or_denied (fallback : value) (key : string) (ls : LocalStorage.t) :
  readable ls = false ->
  try_catch (stored <- getItem key ;; lift (parse_or fallback stored))%eff
            (fun _ => ret fallback) ls
  = (JS.Ok fallback, ls).
Proof.
  intros Hr. unfold try_catch, bind, getItem, lift, ret.
  unfold readable in Hr. destruct (status ls); try discriminate. reflexivity.
Qed.

Lemma getAudioFiles_spec (ls : LocalStorage.t) :
  getAudioFiles ls
  = (JS.Ok (if usable ls then read_or (Arr []) STORAGE_KEYS.AUDIO_FILES ls else Arr []),
     if usable ls then after_probe ls else ls).
Proof.
  unfold getAudioFiles, bind at 1. rewrite checkStorageAvailability_spec.
  destruct (usable ls) eqn:E; simpl; [|reflexivity].
  rewrite parse_or_caught.
  - unfold read_or. rewrite after_probe_lookup by discriminate. reflexivity.
  - apply usable_true in E. unfold readable. simpl. rewrite E. reflexivity.
Qed.


Lemma fold_left_lengths (l : list (string * string)) (acc : Z) :
  fold_left (fun used kv => used + Z.of_nat (String.length (snd kv)))%Z l acc
  = (acc + foldr (fun kv sum => Z.of_nat (String.length (snd kv)) + sum) 0 l)%Z.
Proof.
  revert acc. induction l as [|kv l IH]; intros acc; simpl.
  - lia.
  - rewrite IH. lia.
Qed.

Lemma getStorageInfo_spec (ls : LocalStorage.t) :
  getStorageInfo ls
  = (JS.Ok (if usable ls
            then {| used := value_lengths (after_probe ls);
                    available := 10 * 1024 * 1024 - value_lengths (after_probe ls);
                    total := 10 * 1024 * 1024 |}
            else {| used := 0; available := 0; total := 0 |}),
     if usable ls then after_probe ls else ls).
Proof.
  unfold getStorageInfo, bind. rewrite checkStorageAvailability_spec.
  destruct (usable ls); simpl; [|reflexivity].
  rewrite fold_left_lengths. reflexivity.
Qed.

Lemma after_probe_fresh (ls : LocalStorage.t) :
  items ls !! "__storage_test__" = None -> after_probe ls = ls.
Proof.
  intros Hnone. destruct ls as [m st]. unfold after_probe. simpl in *.
  f_equal. apply delete_id. assumption.
Qed.

(** The entries that the loop of [getStorageInfo] counts. *)
Lemma entries_spec (ls : LocalStorage.t) (key text : string) :
  In (key, text) (entries ls)
  <-> items ls !! key = Some text /\ hasOwnProperty key = true.
Proof.
  unfold entries. rewrite List.filter_In. simpl.
  rewrite <- list_elem_of_In, elem_of_map_to_list. reflexivity.
Qed.

(** C3, as the code has it. When the availability probe passes,
    [getStorageInfo] reports [used] as the sum of the lengths of the
    values that are own properties of the store as the probe leaves it
    (that is the store itself, unless it held the probe's own key): the
    items whose key does not name a member of the prototype, which the
    [hasOwnProperty] check of the loop lets through.  It reports [total]
    as 10*1024*1024 and [available] as [total - used]; when the probe
    fails it reports 0 for all three.  [validateAudioFile] accepts a file
    exactly when its type or its extension is an accepted audio format,
    its size is at most 50*1024*1024 and at most the reported
    [available]. *)
Theorem getStorageInfo_validateAudioFile_spec (ls : LocalStorage.t) (file : File.t) :
  (items ls !! "__storage_test__" = None -> after_probe ls = ls)
  /\ (forall key text,
        In (key, text) (entries (after_probe ls))
        <-> items (after_probe ls) !! key = Some text /\ hasOwnProperty key = true)
  /\ value_lengths (after_probe ls)
     = foldr (fun kv sum => (Z.of_nat (String.length (snd kv)) + sum)%Z) 0%Z
             (entries (after_probe ls))
  /\ exists info v,
    fst (getStorageInfo ls) = JS.Ok info
    /\ info = (if usable ls
               then {| used := value_lengths (after_probe ls);
                       available := 10 * 1024 * 1024 - value_lengths (after_probe ls);
                       total := 10 * 1024 * 1024 |}
               else {| used := 0; available := 0; total := 0 |})
    /\ fst (validateAudioFile file ls) = JS.Ok v
    /\ valid v = accepted_format file
                 && negb (File.size file >? 50 * 1024 * 1024)%Z
                 && negb (File.size file >? available info)%Z.
Proof.
  split; [apply after_probe_fresh|].
  split; [intros key text; apply entries_spec|].
  split; [reflexivity|].
  set (info := if usable ls then _ else _).
  assert (Hinfo : fst (getStorageInfo ls) = JS.Ok info)
    by (rewrite getStorageInfo_spec; reflexivity).
  assert (Hv : exists v, fst (validateAudioFile file ls) = JS.Ok v
                         /\ valid v = accepted_format file
                                      && negb (File.size file >? 50 * 1024 * 1024)%Z
                                      && negb (File.size file >? available info)%Z).
  { unfold validateAudioFile, accepted_format, maxSize.
    rewrite <- negb_orb.
    destruct (Text.includes validTypes (File.type file)
              || Text.has_extension ["mp3"; "wav"; "ogg"; "aac"; "m4a"] (File.name file));
      [change (negb true) with false | eexists; split; reflexivity].
    cbv iota.
    destruct (File.size file >? 50 * 1024 * 1024)%Z; [eexists; split; reflexivity|].
    unfold bind; cbv beta iota. rewrite getStorageInfo_spec. cbv beta iota.
    fold info.
    destruct (File.size file >? available info)%Z; eexists; split; reflexivity. }
  destruct Hv as (v & Hv1 & Hv2).
  exists info, v. repeat split; assumption.
Qed.

(** C3 as stated fails on a store that does not pass the probe.
    [full_store] holds the two characters of an empty list and takes no
    more data: [getStorageInfo] reports [used] 0, not 2, and [total] 0,
    not 10*1024*1024.  For a store that cannot be accessed at all it
    reports [total] 0 as well.  It also fails on a usable store that
    keeps an item under a key such as [length]: the values of
    [store_with_hidden_item] have 10 characters, and [used] is 2. *)
Lemma getStorageInfo_of_unavailable_store :
  fst (getStorageInfo full_store) = JS.Ok {| used := 0; available := 0; total := 0 |}
  /\ value_lengths full_store = 2%Z
  /\ fst (getStorageInfo denied_store) = JS.Ok {| used := 0; available := 0; total := 0 |}
  /\ fst (getStorageInfo store_with_hidden_item)
     = JS.Ok {| used := 2; available := 10 * 1024 * 1024 - 2; total := 10 * 1024 * 1024 |}
  /\ all_value_lengths store_with_hidden_item = 10%Z
  /\ ~ (forall ls, exists info,
          fst (getStorageInfo ls) = JS.Ok info
          /\ used info = value_lengths ls
          /\ total info = (10 * 1024 * 1024)%Z
          /\ available info = (total info - used info)%Z).
Proof.
  split; [reflexivity|]. split; [vm_compute; reflexivity|]. split; [reflexivity|].
  split; [vm_compute; reflexivity|]. split; [vm_compute; reflexivity|].
  intros H. destruct (H full_store) as (info & Hinfo & _ & Htotal & _).
  rewrite getStorageInfo_spec in Hinfo. simpl in Hinfo.
  injection Hinfo as <-. discriminate Htotal.
Qed.

(** [file => file.id === id] on a value that is not [null]. *)
Lemma has_id_not_null (id : string) (file : value) :
  file <> Null -> has_id id file = JS.Ok (id_is id file).
Proof.
  intros Hn. destruct file; try reflexivity. congruence.
Qed.



(** Reading the list back after it has been written. *)
Lemma getAudioFiles_after_write (m : gmap string string) (v : value) :
  round_trips v ->
  fst (getAudioFiles
         (LocalStorage.mk (<[STORAGE_KEYS.AUDIO_FILES := stringify v]> m) Usable))
  = JS.Ok v.
Proof.
  intros [Hne Hrt]. rewrite getAudioFiles_spec. simpl.
  unfold read_or. simpl. rewrite lookup_insert_eq.
  destruct (stringify v) as [|c s] eqn:E; [congruence|].
  rewrite Hrt. reflexivity.
Qed.


Lemma usable_after_probe (ls : LocalStorage.t) : usable (after_probe ls) = usable ls.
Proof. reflexivity. Qed.






End StorageProperties.

(** ** Runs of the storage service with the reference codec *)

Section StorageRuns.

Import Eff LocalStorage JSON audioStorage Stores.

Existing Instance JSONText.codec.

(** [song_file] against the empty store. *)
Lemma getStorageInfo_validateAudioFile_spec_witness :
  after_probe empty_store = empty_store
  /\ exists info v,
       fst (getStorageInfo empty_store) = JS.Ok info
       /\ total info = (10 * 1024 * 1024)%Z
       /\ fst (validateAudioFile song_file empty_store) = JS.Ok v
       /\ valid v = true.
Proof.
  destruct (getStorageInfo_validateAudioFile_spec empty_store song_file)
    as (Hprobe & _ & _ & info & v & Hinfo & Hshape & Hv & Hvalid).
  split; [exact (Hprobe eq_refl)|].
  exists info, v. split; [exact Hinfo|]. split; [rewrite Hshape; reflexivity|].
  split; [exact Hv|]. rewrite Hvalid, Hshape. vm_compute. reflexivity.
Defined.







End StorageRuns.

(** ** The uploader *)

Section UploaderProperties.

Import Eff LocalStorage JSON audioStorage AudioUploader Stores.

Context {codec : Codec}.

(** [saveAudioFile] given anything but a [File] throws, and writes
    nothing under the keys of the application. *)
Lemma saveAudioFile_of_object (env : Env) (object : value) (ls : LocalStorage.t) :
  exists message,
    fst (saveAudioFile env (AObject object) ls) = JS.Throw message
    /\ (forall key, key <> "__storage_test__" ->
                    items (snd (saveAudioFile env (AObject object) ls)) !! key
                    = items ls !! key).
Proof.
  unfold saveAudioFile, bind. rewrite checkStorageAvailability_spec.
  destruct (usable ls); cbv beta iota.
  - change (negb true) with false. cbv iota.
    unfold try_catch, lift, fileToBase64, throw. cbv beta iota.
    eexists. split; [reflexivity|].
    intros key Hne. apply after_probe_lookup. assumption.
  - eexists. split; [reflexivity|]. reflexivity.
Qed.

(** The loop of [handleFiles] is left at its first file, with an error:
    either the file is refused, or it cannot be processed, or
    [saveAudioFile] throws on the object it is given. *)
Lemma upload_loop_stops_at_first_file
    (envs : nat -> Env) (totalFiles i : nat) (file : File.t) (rest : list File.t)
    (processedFiles : list value) (s : State) (ls : LocalStorage.t) :
  exists message,
    fst (upload_loop envs totalFiles i (file :: rest) processedFiles s ls)
    = JS.Ok (setUploading false
               (setUploadStatus (Some {| type := "error"; message := message |}) s),
             Returned)
    /\ (forall key, key <> "__storage_test__" ->
          items (snd (upload_loop envs totalFiles i (file :: rest) processedFiles s ls)) !! key
          = items ls !! key).
Proof.
  simpl upload_loop.
  destruct (audioStorage.valid (validateFile file)).
  - change (negb true) with false. cbv iota.
    unfold bind, try_catch, lift.
    destruct (processAudioFile (envs i) file) as [audioFile|e].
    + destruct (saveAudioFile_of_object (envs i) audioFile ls) as (m & Hm & Hkeys).
      destruct (saveAudioFile (envs i) (AObject audioFile) ls) as [r ls'].
      simpl in Hm, Hkeys. subst r. simpl.
      eexists. split; [reflexivity|]. exact Hkeys.
    + simpl. eexists. split; reflexivity.
  - simpl. eexists. split; reflexivity.
Qed.

(** Whatever files it is given, [handleFiles] ends with an error status,
    never calls [onUploadComplete], and leaves every key of the
    application as it was. *)
Lemma handleFiles_never_persists
    (envs : nat -> Env) (file : File.t) (rest : list File.t)
    (s : State) (ls : LocalStorage.t) :
  exists message,
    fst (handleFiles envs (file :: rest) s ls)
    = JS.Ok ({| isDragOver := isDragOver s;
                uploading := false;
                uploadStatus := Some {| type := "error"; message := message |};
                uploadProgress := JS.Fin 0 |},
             None)
    /\ (forall key, key <> "__storage_test__" ->
          items (snd (handleFiles envs (file :: rest) s ls)) !! key = items ls !! key).
Proof.
  unfold handleFiles. cbn [length Nat.eqb]. unfold bind. cbv beta iota.
  match goal with
  | |- context [upload_loop envs ?n 0 (file :: rest) [] ?s0 ls] =>
      destruct (upload_loop_stops_at_first_file envs n 0 file rest [] s0 ls)
        as (m & Hm & Hkeys);
      destruct (upload_loop envs n 0 (file :: rest) [] s0 ls) as [r ls']
  end.
  simpl in Hm, Hkeys. subst r. simpl.
  exists m. split; [reflexivity|]. exact Hkeys.
Qed.

(** C1, on the code. [song_file] passes [validateFile], reads and
    decodes without error, and the store is empty and usable; yet
    [handleFiles] reports an error, does not call [onUploadComplete], and
    the store holds no file list afterwards. *)
Theorem handleFiles_fails_on_valid_file :
  audioStorage.valid (validateFile song_file) = true
  /\ fst (handleFiles (fun _ => env0) [song_file] AudioUploader.initialState empty_store)
     = JS.Ok ({| isDragOver := false;
                 uploading := false;
                 uploadStatus :=
                   Some {| type := "error";
                           message := "Failed to process song.mp3: Failed to save audio file: Failed to execute 'readAsDataURL' on 'FileReader': parameter 1 is not of type 'Blob'." |};
                 uploadProgress := JS.Fin 0 |},
              None)
  /\ items (snd (handleFiles (fun _ => env0) [song_file] AudioUploader.initialState
                   empty_store)) !! STORAGE_KEYS.AUDIO_FILES = None.
Proof.
  split; [reflexivity|]. split; [vm_compute; reflexivity|].
  destruct (handleFiles_never_persists (fun _ => env0) song_file []
              AudioUploader.initialState empty_store) as (m & _ & Hkeys).
  rewrite Hkeys by discriminate. reflexivity.
Qed.

End UploaderProperties.

(** ** Sample runs *)

Section SampleRuns.

Import Eff LocalStorage JSON audioStorage Stores.

Example validateAudioFile_samples :
  fst (validateAudioFile song_file empty_store)
  = JS.Ok {| valid := true; error := None |}
  /\ fst (validateAudioFile song_file denied_store)
     = JS.Ok {| valid := false; error := Some "Not enough storage space available" |}
  /\ fst (validateAudioFile recording empty_store)
     = JS.Ok {| valid := false; error := Some "Invalid audio file type" |}
  /\ AudioUploader.validateFile recording
     = {| valid := false;
          error := Some "Unsupported file format. Please upload MP3, WAV, OGG, or M4A files." |}.
Proof. repeat split. Qed.

Example strip_extension_samples :
  Text.strip_extension "my.song.mp3" = "my.song"
  /\ Text.strip_extension "song" = "song"
  /\ Text.strip_extension "song." = "song."
  /\ Text.strip_extension "a.b/c" = "a.b/c"
  /\ Text.has_extension ["mp3"; "wav"] "TRACK.MP3" = true
  /\ Text.has_extension ["mp3"; "wav"] "track.mp3.txt" = false.
Proof. repeat split. Qed.

Example checkStorageAvailability_samples :
  checkStorageAvailability empty_store = (JS.Ok true, empty_store)
  /\ checkStorageAvailability full_store = (JS.Ok false, full_store)
  /\ checkStorageAvailability denied_store = (JS.Ok false, denied_store).
Proof. repeat split. Qed.

Example reference_codec_samples :
  @parse JSONText.codec (@stringify JSONText.codec (Arr [record_a; saved_song]))
  = Some (Arr [record_a; saved_song])
  /\ @parse JSONText.codec " [ 1.5 , { } , [ null, true ] ] "
     = Some (Arr [Num (JS.Fin (3 # 2)); Obj []; Arr [Null; Bool true]])
  /\ @parse JSONText.codec "[1,]" = None
  /\ @parse JSONText.codec (@stringify JSONText.codec (Num JS.PosInf)) = Some Null.
Proof. repeat split; vm_compute; reflexivity. Qed.

End SampleRuns.

(** ** Object spread *)

Section ObjectProperties.

Import JSON Objects Samples.

Lemma lookup_replace (key : string) (v : value) (members members' : list (string * value)) :
  replace key v members = Some members' ->
  forall k, lookup k members' = if (key =? k)%string then Some v else lookup k members.
Proof.
  revert members'. induction members as [|[k0 x] rest IH]; intros members' H k; simpl in *.
  - discriminate.
  - destruct (String.eqb_spec k0 key) as [->|Hne].
    + injection H as <-. simpl. destruct (key =? k)%string; reflexivity.
    + destruct (replace key v rest) as [r|] eqn:E; [|discriminate].
      injection H as <-. simpl. rewrite (IH r eq_refl k).
      destruct (String.eqb_spec k0 k) as [->|]; [|reflexivity].
      destruct (String.eqb_spec key k) as [->|]; [congruence|reflexivity].
Qed.

Lemma replace_none (key : string) (v : value) (members : list (string * value)) :
  replace key v members = None -> lookup key members = None.
Proof.
  induction members as [|[k0 x] rest IH]; simpl; [reflexivity|].
  destruct (k0 =? key)%string; [discriminate|].
  destruct (replace key v rest); [discriminate|]. intros _. apply IH. reflexivity.
Qed.

Lemma lookup_insert_index (n : N) (key : string) (v : value)
    (members : list (string * value)) :
  lookup key members = None ->
  forall k, lookup k (insert_index n key v members)
            = if (key =? k)%string then Some v else lookup k members.
Proof.
  induction members as [|[k0 x] rest IH]; intros Hnone k; simpl in *.
  - reflexivity.
  - destruct (String.eqb_spec k0 key) as [->|Hne]; [discriminate|].
    destruct (array_index k0) as [m|]; [destruct (m <? n)%N|]; simpl.
    + rewrite (IH Hnone k).
      destruct (String.eqb_spec k0 k) as [->|]; [|reflexivity].
      destruct (String.eqb_spec key k) as [->|]; [congruence|reflexivity].
    + reflexivity.
    + reflexivity.
Qed.

Lemma lookup_app_last (key : string) (v : value) (members : list (string * value)) :
  lookup key members = None ->
  forall k, lookup k (members ++ [(key, v)])
            = if (key =? k)%string then Some v else lookup k members.
Proof.
  induction members as [|[k0 x] rest IH]; intros Hnone k; simpl in *.
  - reflexivity.
  - destruct (String.eqb_spec k0 key) as [->|Hne]; [discriminate|].
    rewrite (IH Hnone k).
    destruct (String.eqb_spec k0 k) as [->|]; [|reflexivity].
    destruct (String.eqb_spec key k) as [->|]; [congruence|reflexivity].
Qed.

(** A property read after [object[key] = v]. *)
Lemma lookup_define (key : string) (v : value) (members : list (string * value)) (k : string) :
  lookup k (define key v members) = if (key =? k)%string then Some v else lookup k members.
Proof.
  unfold define. destruct (replace key v members) as [members'|] eqn:E.
  - apply lookup_replace, E.
  - apply replace_none in E. destruct (array_index key).
    + apply lookup_insert_index, E.
    + apply lookup_app_last, E.
Qed.

Lemma lookup_absent (k : string) (l : list (string * value)) :
  k ∉ map fst l -> lookup k l = None.
Proof.
  induction l as [|[k0 x] rest IH]; simpl; [reflexivity|].
  intros Hnot. destruct (String.eqb_spec k0 k) as [->|].
  - exfalso. apply Hnot. left.
  - apply IH. intros Hin. apply Hnot. right. exact Hin.
Qed.

Lemma lookup_fold_define (l members : list (string * value)) (k : string) :
  distinct_keys l ->
  lookup k (fold_left (fun members kv => define (fst kv) (snd kv) members) l members)
  = match lookup k l with
    | Some v => Some v
    | None => lookup k members
    end.
Proof.
  unfold distinct_keys. revert members.
  induction l as [|[k0 x] rest IH]; intros members Hd; simpl; [reflexivity|].
  apply NoDup_cons in Hd as [Hnot Hd].
  rewrite (IH _ Hd). rewrite lookup_define. simpl.
  destruct (String.eqb_spec k0 k) as [->|]; [|reflexivity].
  rewrite (lookup_absent k rest Hnot). reflexivity.
Qed.

(** A property read from [{...target, ...source}]: the one of [source]
    when it has the key. *)
Lemma lookup_copy (source : value) (members : list (string * value)) (k : string) :
  distinct_keys (own_properties source) ->
  lookup k (copy source members)
  = match lookup k (own_properties source) with
    | Some v => Some v
    | None => lookup k members
    end.
Proof. apply lookup_fold_define. Qed.

Lemma lookup_spread2 (a b : value) (k : string) :
  distinct_keys (own_properties a) ->
  distinct_keys (own_properties b) ->
  lookup k (members_of (spread2 a b))
  = match lookup k (own_properties b) with
    | Some v => Some v
    | None => lookup k (own_properties a)
    end.
Proof.
  intros Ha Hb. unfold spread2. simpl. rewrite lookup_copy by assumption.
  rewrite lookup_copy by assumption. simpl.
  destruct (lookup k (own_properties a)); reflexivity.
Qed.

End ObjectProperties.

(** ** The storage service: reading one record, updating, saved state *)

Section MoreStorageProperties.

Import Eff LocalStorage JSON audioStorage Stores Objects Samples.

Context {codec : Codec}.

Lemma usable_readable (ls : LocalStorage.t) : usable ls = true -> readable ls = true.
Proof. unfold usable, readable. destruct (status ls); congruence. Qed.

Lemma read_or_written (fallback v : value) (key : string) (ls : LocalStorage.t) :
  round_trips v ->
  items ls !! key = Some (stringify v) ->
  read_or fallback key ls = v.
Proof.
  intros [Hne Hrt] Hl. unfold read_or. rewrite Hl.
  destruct (stringify v) as [|c s] eqn:E; [congruence|]. rewrite Hrt. reflexivity.
Qed.

Lemma getAudioFiles_frame (ls : LocalStorage.t) (key : string) :
  key <> "__storage_test__" ->
  items (snd (getAudioFiles ls)) !! key = items ls !! key.
Proof.
  intros Hk. rewrite getAudioFiles_spec. simpl.
  destruct (usable ls); [apply after_probe_lookup, Hk|reflexivity].
Qed.

Lemma getAudioFiles_store (ls : LocalStorage.t) :
  snd (getAudioFiles ls) = if usable ls then after_probe ls else ls.
Proof. rewrite getAudioFiles_spec. reflexivity. Qed.

Lemma after_probe_removes_key (ls : LocalStorage.t) :
  items (after_probe ls) !! "__storage_test__" = None.
Proof. apply lookup_delete_eq. Qed.





Lemma findIndex_none (id : string) (xs : list value) :
  Forall (fun file => file <> Null) xs ->
  Forall (fun file => id_is id file = false) xs ->
  findIndex (has_id id) xs = JS.Ok None.
Proof.
  induction 1 as [|x xs Hx _ IH]; intros Hid; simpl; [reflexivity|].
  apply Forall_cons in Hid as [Hid1 Hid].
  rewrite has_id_not_null by assumption. simpl. rewrite Hid1.
  rewrite IH by assumption. reflexivity.
Qed.

Lemma findIndex_first (id : string) (before after : list value) (file : value) :
  Forall (fun file => file <> Null) before ->
  Forall (fun file => id_is id file = false) before ->
  id_is id file = true ->
  findIndex (has_id id) (before ++ file :: after) = JS.Ok (Some (length before)).
Proof.
  intros Hn Hid Hfile. induction Hn as [|x xs Hx _ IH]; simpl.
  - rewrite has_id_not_null by (destruct file; simpl in Hfile; congruence).
    simpl. rewrite Hfile. reflexivity.
  - apply Forall_cons in Hid as [Hid1 Hid].
    rewrite has_id_not_null by assumption. simpl. rewrite Hid1.
    rewrite IH by assumption. reflexivity.
Qed.

(** X2. [updateAudioFile(id, updates)] for an id that no entry of the
    stored list carries (the list holding no [null]) returns [false] and
    writes no record: it leaves the store as the availability probe of
    [getAudioFiles] leaves it.  On a usable store that is the store
    without the probe's key [__storage_test__], every other key keeping
    its value; on any other store nothing has changed. *)
Theorem updateAudioFile_unknown_id
    (id : string) (updates : value) (xs : list value) (ls : LocalStorage.t) :
  fst (getAudioFiles ls) = JS.Ok (Arr xs) ->
  Forall (fun file => file <> Null) xs ->
  Forall (fun file => id_is id file = false) xs ->
  fst (updateAudioFile id updates ls) = JS.Ok false
  /\ snd (updateAudioFile id updates ls) = (if usable ls then after_probe ls else ls)
  /\ (forall key, key <> "__storage_test__" ->
                  items (snd (updateAudioFile id updates ls)) !! key = items ls !! key)
  /\ (usable ls = true ->
      items (snd (updateAudioFile id updates ls)) !! "__storage_test__" = None).
Proof.
  intros Hfiles Hn Hid.
  assert (Hupd : updateAudioFile id updates ls
                 = (JS.Ok false, if usable ls then after_probe ls else ls)).
  { pose proof (getAudioFiles_store ls) as Hstore.
    unfold updateAudioFile, try_catch, bind, lift.
    destruct (getAudioFiles ls) as [r ls1]. simpl in Hfiles, Hstore. subst r ls1.
    simpl. rewrite findIndex_none by assumption. reflexivity. }
  rewrite Hupd. simpl fst. simpl snd.
  split; [reflexivity|]. split; [reflexivity|]. split.
  - intros key Hk. destruct (usable ls); [apply after_probe_lookup, Hk|reflexivity].
  - intros ->. apply after_probe_removes_key.
Qed.

(** X3. [updateAudioFile(id, updates)] on a usable store whose file
    list holds no [null] before the first record whose [id] is [id]
    changes that record, in place: it returns [true], the list read
    afterwards has the record replaced by the merge of the record and
    [updates] (a key of [updates] wins over the record's), and the other
    entries are as before.  The other keys of the store keep their
    values, but for the key of the availability probe,
    [__storage_test__], which is removed. *)
Theorem updateAudioFile_merges_into_first_match
    (id : string) (updates : value) (before after : list value)
    (members : list (string * value)) (ls : LocalStorage.t) :
  status ls = Usable ->
  fst (getAudioFiles ls) = JS.Ok (Arr (before ++ Obj members :: after)) ->
  Forall (fun file => file <> Null) before ->
  Forall (fun file => id_is id file = false) before ->
  id_is id (Obj members) = true ->
  distinct_keys members ->
  distinct_keys (own_properties updates) ->
  round_trips (Arr (before ++ spread2 (Obj members) updates :: after)) ->
  exists merged,
    fst (updateAudioFile id updates ls) = JS.Ok true
    /\ fst (getAudioFiles (snd (updateAudioFile id updates ls)))
       = JS.Ok (Arr (before ++ Obj merged :: after))
    /\ (forall key, lookup key merged
                    = match lookup key (own_properties updates) with
                      | Some v => Some v
                      | None => lookup key members
                      end)
    /\ (forall key, key <> STORAGE_KEYS.AUDIO_FILES -> key <> "__storage_test__" ->
                    items (snd (updateAudioFile id updates ls)) !! key = items ls !! key)
    /\ items (snd (updateAudioFile id updates ls)) !! "__storage_test__" = None.
Proof.
  intros Hs Hfiles Hn Hid Hfile Hd Hdu Hrt.
  assert (Hu : usable ls = true) by (apply usable_true; assumption).
  assert (Hupd : updateAudioFile id updates ls
                 = (JS.Ok true,
                    LocalStorage.mk
                      (<[STORAGE_KEYS.AUDIO_FILES :=
                           stringify (Arr (before ++ spread2 (Obj members) updates :: after))]>
                         (items (after_probe ls))) Usable)).
  { unfold updateAudioFile, try_catch, bind, lift.
    rewrite getAudioFiles_spec in Hfiles |- *. rewrite Hu in Hfiles |- *.
    simpl in Hfiles. injection Hfiles as Hfiles. rewrite Hfiles. simpl.
    rewrite findIndex_first by assumption. simpl.
    rewrite nth_middle.
    replace (length before) with (length before + 0)%nat at 1 by lia.
    rewrite insert_app_r. simpl.
    unfold setItem. simpl. rewrite Hs. reflexivity. }
  rewrite Hupd. simpl fst. simpl snd.
  exists (members_of (spread2 (Obj members) updates)).
  split; [reflexivity|]. split; [|split; [|split]].
  - rewrite getAudioFiles_after_write by assumption. reflexivity.
  - intros key. apply (lookup_spread2 (Obj members) updates key); assumption.
  - intros key Hk Ht. simpl.
    rewrite lookup_insert_ne by congruence.
    apply lookup_delete_ne. congruence.
  - simpl. rewrite lookup_insert_ne by discriminate. apply lookup_delete_eq.
Qed.

Lemma getPlaylistState_spec (ls : LocalStorage.t) :
  getPlaylistState ls
  = (JS.Ok (if readable ls then read_or (Arr []) STORAGE_KEYS.CURRENT_PLAYLIST ls
            else Arr []), ls).
Proof.
  unfold getPlaylistState. destruct (readable ls) eqn:E.
  - apply parse_or_caught, E.
  - apply parse_or_denied, E.
Qed.

Lemma getPlaybackState_spec (ls : LocalStorage.t) :
  getPlaybackState ls
  = (JS.Ok (if readable ls then read_or Null STORAGE_KEYS.PLAYBACK_STATE ls else Null), ls).
Proof.
  unfold getPlaybackState. destruct (readable ls) eqn:E.
  - apply parse_or_caught, E.
  - apply parse_or_denied, E.
Qed.

Lemma getUserPreferences_spec (ls : LocalStorage.t) :
  getUserPreferences ls
  = (JS.Ok (if readable ls
            then read_or defaultPreferences STORAGE_KEYS.USER_PREFERENCES ls
            else defaultPreferences), ls).
Proof.
  unfold getUserPreferences. destruct (readable ls) eqn:E.
  - apply parse_or_caught, E.
  - apply parse_or_denied, E.
Qed.

(** X4. [savePlaylistState] never throws: it returns whether the store
    took the write.  When it did, [getPlaylistState()] returns the
    playlist saved (as far as JSON reads it back) and no other key has
    changed; when it did not, the store is as it was. *)
Theorem savePlaylistState_then_getPlaylistState
    (playlist : value) (ls : LocalStorage.t) :
  fst (savePlaylistState playlist ls) = JS.Ok (usable ls)
  /\ (usable ls = false -> snd (savePlaylistState playlist ls) = ls)
  /\ (usable ls = true -> round_trips playlist ->
      fst (getPlaylistState (snd (savePlaylistState playlist ls))) = JS.Ok playlist
      /\ forall key, key <> STORAGE_KEYS.CURRENT_PLAYLIST ->
                     items (snd (savePlaylistState playlist ls)) !! key = items ls !! key).
Proof.
  unfold savePlaylistState, try_catch, bind, setItem, ret, usable.
  destruct (status ls) eqn:Hs; simpl; (split; [reflexivity|]);
    (split; [try reflexivity; discriminate|]); try discriminate.
  intros _ Hrt. rewrite getPlaylistState_spec. simpl. split.
  - f_equal. apply read_or_written; [assumption|]. simpl. apply lookup_insert_eq.
  - intros key Hk. apply lookup_insert_ne. congruence.
Qed.

(** X5. [savePlaybackState(state)] on a usable store stores the
    properties of [state] together with the time of the call:
    [getPlaybackState()] then returns an object whose [timestamp] is that
    time, also when [state] had a [timestamp] of its own, and whose other
    properties are those of [state]. *)
Theorem savePlaybackState_stamps_the_state
    (env : Env) (state : value) (ls : LocalStorage.t) :
  status ls = Usable ->
  distinct_keys (own_properties state) ->
  round_trips (Obj (define "timestamp" (Str (Date_toISOString env)) (copy state []))) ->
  exists stored,
    fst (savePlaybackState env state ls) = JS.Ok true
    /\ fst (getPlaybackState (snd (savePlaybackState env state ls))) = JS.Ok (Obj stored)
    /\ lookup "timestamp" stored = Some (Str (Date_toISOString env))
    /\ (forall key, key <> "timestamp" ->
                    lookup key stored = lookup key (own_properties state))
    /\ (forall key, key <> STORAGE_KEYS.PLAYBACK_STATE ->
                    items (snd (savePlaybackState env state ls)) !! key = items ls !! key).
Proof.
  intros Hs Hd Hrt.
  exists (define "timestamp" (Str (Date_toISOString env)) (copy state [])).
  unfold savePlaybackState, try_catch, bind, setItem, ret. rewrite Hs. simpl.
  split; [reflexivity|]. split; [|split; [|split]].
  - rewrite getPlaybackState_spec. simpl. f_equal.
    apply read_or_written; [assumption|]. simpl. apply lookup_insert_eq.
  - rewrite lookup_define. reflexivity.
  - intros key Hk. rewrite lookup_define.
    destruct (String.eqb_spec "timestamp" key) as [<-|_]; [congruence|].
    rewrite lookup_copy by assumption. simpl.
    destruct (lookup key (own_properties state)); reflexivity.
  - intros key Hk. apply lookup_insert_ne. congruence.
Qed.

(** X6. [saveUserPreferences(preferences)] on a usable store merges:
    afterwards [getUserPreferences()] returns an object in which a key of
    [preferences] has the new value and every other key the value it had
    before (the default when nothing was stored); no other key of the
    store changes. *)
Theorem saveUserPreferences_merges
    (preferences existing : value) (ls : LocalStorage.t) :
  status ls = Usable ->
  fst (getUserPreferences ls) = JS.Ok existing ->
  distinct_keys (own_properties existing) ->
  distinct_keys (own_properties preferences) ->
  round_trips (spread2 existing preferences) ->
  exists stored,
    fst (saveUserPreferences preferences ls) = JS.Ok true
    /\ fst (getUserPreferences (snd (saveUserPreferences preferences ls)))
       = JS.Ok (Obj stored)
    /\ (forall key, lookup key stored
                    = match lookup key (own_properties preferences) with
                      | Some v => Some v
                      | None => lookup key (own_properties existing)
                      end)
    /\ (forall key, key <> STORAGE_KEYS.USER_PREFERENCES ->
                    items (snd (saveUserPreferences preferences ls)) !! key
                    = items ls !! key).
Proof.
  intros Hs Hex Hd Hdp Hrt.
  exists (members_of (spread2 existing preferences)).
  unfold saveUserPreferences, try_catch, bind.
  rewrite getUserPreferences_spec in Hex |- *. simpl in Hex. injection Hex as Hex.
  rewrite Hex. unfold setItem, ret. rewrite Hs. simpl.
  split; [reflexivity|]. split; [|split].
  - rewrite getUserPreferences_spec. simpl. f_equal.
    apply read_or_written; [assumption|]. simpl. apply lookup_insert_eq.
  - intros key. apply lookup_spread2; assumption.
  - intros key Hk. apply lookup_insert_ne. congruence.
Qed.

Lemma read_or_missing (fallback : value) (key : string) (ls : LocalStorage.t) :
  items ls !! key = None -> read_or fallback key ls = fallback.
Proof. intros H. unfold read_or. rewrite H. reflexivity. Qed.

(** X7. [clearAllData] never throws.  Unless the store denies access it
    returns [true], and afterwards the four readers return their
    defaults (no files, no playlist, no playback state, the default
    preferences) while the keys of other applications are untouched; on
    a store that denies access it returns [false] and changes nothing. *)
Theorem clearAllData_resets_the_readers (ls : LocalStorage.t) :
  fst (clearAllData ls) = JS.Ok (readable ls)
  /\ (readable ls = false -> snd (clearAllData ls) = ls)
  /\ (readable ls = true ->
      fst (getAudioFiles (snd (clearAllData ls))) = JS.Ok (Arr [])
      /\ fst (getPlaylistState (snd (clearAllData ls))) = JS.Ok (Arr [])
      /\ fst (getPlaybackState (snd (clearAllData ls))) = JS.Ok Null
      /\ fst (getUserPreferences (snd (clearAllData ls))) = JS.Ok defaultPreferences
      /\ forall key,
           key <> STORAGE_KEYS.AUDIO_FILES -> key <> STORAGE_KEYS.CURRENT_PLAYLIST ->
           key <> STORAGE_KEYS.PLAYBACK_STATE -> key <> STORAGE_KEYS.USER_PREFERENCES ->
           items (snd (clearAllData ls)) !! key = items ls !! key).
Proof.
  assert (Hclear : readable ls = true ->
            clearAllData ls
            = (JS.Ok true,
               LocalStorage.mk
                 (delete STORAGE_KEYS.USER_PREFERENCES
                    (delete STORAGE_KEYS.PLAYBACK_STATE
                       (delete STORAGE_KEYS.CURRENT_PLAYLIST
                          (delete STORAGE_KEYS.AUDIO_FILES (items ls)))))
                 (status ls))).
  { unfold readable, clearAllData, try_catch, bind, removeItem, ret.
    destruct (status ls); simpl; [discriminate|reflexivity|reflexivity]. }
  destruct (readable ls) eqn:Hr.
  - rewrite (Hclear eq_refl). simpl fst. simpl snd.
    split; [reflexivity|]. split; [discriminate|]. intros _.
    set (ls' := LocalStorage.mk _ (status ls)).
    assert (Hr' : readable ls' = true) by exact Hr.
    split; [|split; [|split; [|split]]].
    + rewrite getAudioFiles_spec. simpl.
      destruct (usable ls'); [|reflexivity]. f_equal. apply read_or_missing.
      unfold ls'. simpl.
      rewrite !lookup_delete_ne by discriminate.
      apply lookup_delete_eq.
    + rewrite getPlaylistState_spec, Hr'. simpl. f_equal. apply read_or_missing.
      unfold ls'. simpl.
      rewrite !(lookup_delete_ne _ _ STORAGE_KEYS.CURRENT_PLAYLIST) by discriminate.
      apply lookup_delete_eq.
    + rewrite getPlaybackState_spec, Hr'. simpl. f_equal. apply read_or_missing.
      unfold ls'. simpl.
      rewrite !(lookup_delete_ne _ _ STORAGE_KEYS.PLAYBACK_STATE) by discriminate.
      apply lookup_delete_eq.
    + rewrite getUserPreferences_spec, Hr'. simpl. f_equal. apply read_or_missing.
      unfold ls'. simpl. apply lookup_delete_eq.
    + intros key H1 H2 H3 H4. unfold ls'. simpl.
      rewrite !lookup_delete_ne by congruence. reflexivity.
  - split; [|split; [|discriminate]].
    + unfold readable in Hr. unfold clearAllData, try_catch, bind, removeItem, ret.
      destruct (status ls); simpl; congruence.
    + intros _. unfold readable in Hr.
      unfold clearAllData, try_catch, bind, removeItem, ret.
      destruct (status ls); simpl; congruence.
Qed.



(** What [saveAudioFile] returns and leaves, case by case. *)
Lemma saveAudioFile_cases (env : Env) (file : argument) (ls : LocalStorage.t) :
  (usable ls = false
   /\ saveAudioFile env file ls = (JS.Throw "LocalStorage is not available", ls))
  \/ (usable ls = true
      /\ ((exists cause,
             saveAudioFile env file ls
             = (JS.Throw ("Failed to save audio file: " ++ cause), after_probe ls))
          \/ (exists r text,
                saveAudioFile env file ls
                = (JS.Ok r,
                   LocalStorage.mk
                     (<[STORAGE_KEYS.AUDIO_FILES := text]> (items (after_probe ls)))
                     Usable)))).
Proof.
  unfold saveAudioFile, bind. rewrite checkStorageAvailability_spec.
  destruct (usable ls) eqn:Hu; cbv beta iota; [right|left; split; reflexivity].
  split; [reflexivity|].
  change (negb true) with false. cbv iota.
  unfold try_catch, lift, throw.
  destruct (fileToBase64 file) as [base64Data|m1]; cbv beta iota;
    [|left; eexists; reflexivity].
  destruct (extractMetadata file) as [metadata|m2]; cbv beta iota;
    [|left; eexists; reflexivity].
  rewrite getAudioFiles_spec. rewrite usable_after_probe, Hu.
  rewrite after_probe_idempotent. cbv beta iota.
  destruct (spread _) as [existing|m3]; cbv beta iota;
    [|left; eexists; reflexivity].
  apply usable_true in Hu. unfold setItem, ret.
  change (status (after_probe ls)) with (status ls). rewrite Hu. simpl.
  right. eexists _, _. reflexivity.
Qed.

(** X9. [saveAudioFile] touches nothing but the file list and the key
    of its availability probe: whatever it is given and however it ends,
    every other key of the store keeps its value.  The probe's key,
    [__storage_test__], is removed when the store is usable; a store
    that is not usable is left exactly as it was.  When [saveAudioFile]
    throws, the file list is as it was, and the message is one of its two
    own. *)
Theorem saveAudioFile_changes_only_the_file_list
    (env : Env) (file : argument) (ls : LocalStorage.t) :
  (forall key, key <> STORAGE_KEYS.AUDIO_FILES -> key <> "__storage_test__" ->
               items (snd (saveAudioFile env file ls)) !! key = items ls !! key)
  /\ (usable ls = true ->
      items (snd (saveAudioFile env file ls)) !! "__storage_test__" = None)
  /\ (usable ls = false -> snd (saveAudioFile env file ls) = ls)
  /\ forall message,
       fst (saveAudioFile env file ls) = JS.Throw message ->
       items (snd (saveAudioFile env file ls)) !! STORAGE_KEYS.AUDIO_FILES
       = items ls !! STORAGE_KEYS.AUDIO_FILES
       /\ (message = "LocalStorage is not available"
           \/ exists cause, message = "Failed to save audio file: " ++ cause).
Proof.
  destruct (saveAudioFile_cases env file ls)
    as [[Hu ->]|[Hu [[cause ->]|(r & text & ->)]]]; simpl fst; simpl snd.
  - split; [reflexivity|]. split; [congruence|]. split; [reflexivity|].
    intros message H. injection H as <-. split; [reflexivity|left; reflexivity].
  - split; [intros key _ Hk; apply after_probe_lookup, Hk|].
    split; [intros _; apply after_probe_removes_key|]. split; [congruence|].
    intros message H. injection H as <-.
    split; [apply after_probe_lookup; discriminate|right; eexists; reflexivity].
  - split.
    { intros key Hk Ht. simpl. rewrite lookup_insert_ne by congruence.
      apply lookup_delete_ne. congruence. }
    split.
    { intros _. simpl. rewrite lookup_insert_ne by discriminate. apply lookup_delete_eq. }
    split; [congruence|]. discriminate.
Qed.

End MoreStorageProperties.

(** ** Runs of the remaining storage functions with the reference codec *)

Section MoreStorageRuns.

Import Eff LocalStorage JSON audioStorage Stores Objects Samples.

Existing Instance JSONText.codec.


(** Updating a record that is not in the store. *)
Lemma updateAudioFile_unknown_id_witness :
  fst (updateAudioFile "c" (Obj [("playCount", Num (JS.Fin 1))]) library_store)
  = JS.Ok false
  /\ items (snd (updateAudioFile "c" (Obj [("playCount", Num (JS.Fin 1))]) library_store))
       !! STORAGE_KEYS.AUDIO_FILES
     = items library_store !! STORAGE_KEYS.AUDIO_FILES.
Proof.
  assert (Hfiles : fst (getAudioFiles library_store) = JS.Ok (Arr [record_a; record_b]))
    by (vm_compute; reflexivity).
  assert (Hrecords : Forall (fun file : value => file <> Null) [record_a; record_b])
    by (repeat constructor; discriminate).
  assert (Hids : Forall (fun file : value => id_is "c" file = false) [record_a; record_b])
    by (repeat constructor).
  pose proof (updateAudioFile_unknown_id "c" (Obj [("playCount", Num (JS.Fin 1))])
                [record_a; record_b] library_store Hfiles Hrecords Hids)
    as (H1 & _ & H2 & _).
  split; [exact H1|]. apply H2. discriminate.
Defined.

(** Counting one more play of record [b]. *)
Lemma updateAudioFile_merges_into_first_match_witness :
  exists merged,
    fst (updateAudioFile "b" (Obj [("playCount", Num (JS.Fin 1));
                                   ("lastPlayed", Str "2023-11-14T22:13:20.000Z")])
           library_store) = JS.Ok true
    /\ fst (getAudioFiles
              (snd (updateAudioFile "b" (Obj [("playCount", Num (JS.Fin 1));
                                              ("lastPlayed", Str "2023-11-14T22:13:20.000Z")])
                      library_store)))
       = JS.Ok (Arr ([record_a] ++ Obj merged :: []))
    /\ lookup "playCount" merged = Some (Num (JS.Fin 1))
    /\ lookup "data" merged = Some (Str "data:audio/ogg;base64,T2dnUw==").
Proof.
  set (updates := Obj [("playCount", Num (JS.Fin 1));
                       ("lastPlayed", Str "2023-11-14T22:13:20.000Z")]).
  assert (Hs : status library_store = Usable) by reflexivity.
  assert (Hfiles : fst (getAudioFiles library_store)
                   = JS.Ok (Arr ([record_a] ++ Obj (members_of record_b) :: [])))
    by (vm_compute; reflexivity).
  assert (Hbefore : Forall (fun file : value => file <> Null) [record_a])
    by (repeat constructor; discriminate).
  assert (Hids : Forall (fun file : value => id_is "b" file = false) [record_a])
    by (repeat constructor).
  assert (Hid : id_is "b" (Obj (members_of record_b)) = true) by reflexivity.
  assert (Hd : distinct_keys (members_of record_b)).
  { apply (bool_decide_unpack _). vm_compute. reflexivity. }
  assert (Hdu : distinct_keys (own_properties updates)).
  { apply (bool_decide_unpack _). vm_compute. reflexivity. }
  assert (Hrt : round_trips (Arr ([record_a]
                                  ++ spread2 (Obj (members_of record_b)) updates :: []))).
  { split; [vm_compute; discriminate | vm_compute; reflexivity]. }
  pose proof (updateAudioFile_merges_into_first_match "b" updates [record_a] []
                (members_of record_b) library_store Hs Hfiles Hbefore Hids Hid Hd Hdu Hrt)
    as (merged & H1 & H2 & H3 & _).
  exists merged. split; [exact H1|]. split; [exact H2|].
  split; [rewrite (H3 "playCount") | rewrite (H3 "data")]; reflexivity.
Defined.

(** Saving a playlist of two ids into the empty store. *)
Lemma savePlaylistState_then_getPlaylistState_witness :
  fst (savePlaylistState (Arr [Str "a"; Str "b"]) empty_store) = JS.Ok true
  /\ fst (getPlaylistState (snd (savePlaylistState (Arr [Str "a"; Str "b"]) empty_store)))
     = JS.Ok (Arr [Str "a"; Str "b"]).
Proof.
  assert (Hrt : round_trips (Arr [Str "a"; Str "b"])).
  { split; [vm_compute; discriminate | vm_compute; reflexivity]. }
  pose proof (savePlaylistState_then_getPlaylistState (Arr [Str "a"; Str "b"]) empty_store)
    as (H1 & _ & H3).
  split; [exact H1|]. exact (proj1 (H3 eq_refl Hrt)).
Defined.

(** Saving a playback state that carries a stale [timestamp]. *)
Lemma savePlaybackState_stamps_the_state_witness :
  exists stored,
    fst (getPlaybackState
           (snd (savePlaybackState env0
                   (Obj [("trackId", Str "a"); ("timestamp", Str "yesterday");
                         ("position", Num (JS.Fin 42))])
                   empty_store)))
    = JS.Ok (Obj stored)
    /\ lookup "timestamp" stored = Some (Str "2023-11-14T22:13:20.000Z")
    /\ lookup "position" stored = Some (Num (JS.Fin 42)).
Proof.
  set (state := Obj [("trackId", Str "a"); ("timestamp", Str "yesterday");
                     ("position", Num (JS.Fin 42))]).
  assert (Hs : status empty_store = Usable) by reflexivity.
  assert (Hd : distinct_keys (own_properties state)).
  { apply (bool_decide_unpack _). vm_compute. reflexivity. }
  assert (Hrt : round_trips (Obj (define "timestamp" (Str (Date_toISOString env0))
                                         (copy state [])))).
  { split; [vm_compute; discriminate | vm_compute; reflexivity]. }
  pose proof (savePlaybackState_stamps_the_state env0 state empty_store Hs Hd Hrt)
    as (stored & _ & H2 & H3 & H4 & _).
  exists stored. split; [exact H2|]. split; [exact H3|].
  rewrite (H4 "position") by discriminate. reflexivity.
Defined.

(** Turning the volume down in a store that holds other preferences. *)
Lemma saveUserPreferences_merges_witness :
  exists stored,
    fst (getUserPreferences
           (snd (saveUserPreferences (Obj [("volume", Num (JS.Fin (1 # 2)))])
                   preferences_store)))
    = JS.Ok (Obj stored)
    /\ lookup "volume" stored = Some (Num (JS.Fin (1 # 2)))
    /\ lookup "theme" stored = Some (Str "light")
    /\ lookup "repeat" stored = Some (Str "all").
Proof.
  set (preferences := Obj [("volume", Num (JS.Fin (1 # 2)))]).
  set (existing := Obj [("volume", Num (JS.Fin 1)); ("shuffle", Bool true);
                        ("repeat", Str "all"); ("theme", Str "light")]).
  assert (Hs : status preferences_store = Usable) by reflexivity.
  assert (Hex : fst (getUserPreferences preferences_store) = JS.Ok existing)
    by (vm_compute; reflexivity).
  assert (Hd : distinct_keys (own_properties existing)).
  { apply (bool_decide_unpack _). vm_compute. reflexivity. }
  assert (Hdp : distinct_keys (own_properties preferences)).
  { apply (bool_decide_unpack _). vm_compute. reflexivity. }
  assert (Hrt : round_trips (spread2 existing preferences)).
  { split; [vm_compute; discriminate | vm_compute; reflexivity]. }
  pose proof (saveUserPreferences_merges preferences existing preferences_store
                Hs Hex Hd Hdp Hrt) as (stored & _ & H2 & H3 & _).
  exists stored. split; [exact H2|].
  rewrite !H3. repeat split.
Defined.


End MoreStorageRuns.

(** ** The uploader: validation and the loop of [handleFiles] *)

Section MoreUploaderProperties.

Import Eff LocalStorage JSON audioStorage AudioUploader Stores.

Context {codec : Codec}.

Lemma supportedFormats_are_validTypes (t : string) :
  Text.includes supportedFormats t = true -> Text.includes validTypes t = true.
Proof.
  unfold Text.includes, supportedFormats, validTypes. cbn [existsb].
  repeat match goal with
         | |- context [(?a =? t)%string] => destruct (a =? t)%string
         end; simpl; congruence.
Qed.

Lemma uploader_extensions_are_accepted (name : string) :
  Text.has_extension ["mp3"; "wav"; "ogg"; "m4a"] name = true ->
  Text.has_extension ["mp3"; "wav"; "ogg"; "aac"; "m4a"] name = true.
Proof.
  unfold Text.has_extension. cbn [existsb].
  repeat match goal with
         | |- context [Text.ends_with_ci ?a name] => destruct (Text.ends_with_ci a name)
         end; simpl; congruence.
Qed.

(** X10. The uploader's [validateFile] is at least as strict as the
    service's [validateAudioFile] on format and size: a file it accepts
    has an accepted format and at most 50MB, so that on a usable store
    with room for it [validateAudioFile] accepts it too. *)
Theorem validateFile_implies_validateAudioFile (file : File.t) (ls : LocalStorage.t) :
  valid (validateFile file) = true ->
  accepted_format file = true
  /\ (File.size file <= maxSize)%Z
  /\ (usable ls = true ->
      (File.size file <= 10 * 1024 * 1024 - value_lengths (after_probe ls))%Z ->
      fst (validateAudioFile file ls) = JS.Ok {| valid := true; error := None |}).
Proof.
  intros Hv.
  assert (Hfmt : accepted_format file = true
                 /\ (File.size file >? 50 * 1024 * 1024)%Z = false).
  { unfold validateFile in Hv. unfold accepted_format.
    destruct (Text.includes supportedFormats (File.type file)) eqn:Ht;
      destruct (Text.has_extension ["mp3"; "wav"; "ogg"; "m4a"] (File.name file)) eqn:He;
      cbn [negb andb] in Hv; try discriminate;
      (destruct (File.size file >? 50 * 1024 * 1024)%Z; [discriminate|]);
      (split; [|reflexivity]);
      rewrite ?(supportedFormats_are_validTypes _ Ht),
              ?(uploader_extensions_are_accepted _ He), ?orb_true_r; reflexivity. }
  destruct Hfmt as [Hf Hsize]. split; [exact Hf|]. split.
  { unfold maxSize. rewrite Z.gtb_ltb in Hsize. apply Z.ltb_ge in Hsize. exact Hsize. }
  intros Hu Hroom. unfold validateAudioFile, maxSize. unfold accepted_format in Hf.
  assert (Hneg : negb (Text.includes validTypes (File.type file))
                 && negb (Text.has_extension ["mp3"; "wav"; "ogg"; "aac"; "m4a"]
                            (File.name file)) = false).
  { apply orb_true_iff in Hf as [Hf|Hf]; rewrite Hf;
      [reflexivity|apply andb_false_r]. }
  rewrite Hneg, Hsize. unfold bind. rewrite getStorageInfo_spec, Hu.
  cbv beta iota. cbn [available].
  assert (Hr : (File.size file >? 10 * 1024 * 1024 - value_lengths (after_probe ls))%Z
               = false).
  { rewrite Z.gtb_ltb. apply Z.ltb_ge. exact Hroom. }
  rewrite Hr. reflexivity.
Qed.

Lemma saveAudioFile_of_object_message (env : Env) (object : value) (ls : LocalStorage.t) :
  saveAudioFile env (AObject object) ls
  = (JS.Throw (if usable ls
               then "Failed to save audio file: Failed to execute 'readAsDataURL' on 'FileReader': parameter 1 is not of type 'Blob'."
               else "LocalStorage is not available"),
     if usable ls then after_probe ls else ls).
Proof.
  unfold saveAudioFile, bind. rewrite checkStorageAvailability_spec.
  destruct (usable ls); reflexivity.
Qed.

(** X11. [handleFiles] on a list that is not empty never gets past its
    first file: it ends with an error status that says why (the file
    was refused by [validateFile], could not be processed, or was
    refused by [saveAudioFile]), with [uploading] off and the progress at
    0, and it does not call [onUploadComplete].  The store is left as it
    was, except that when [saveAudioFile] has been reached on a usable
    store, its availability probe has removed the key
    [__storage_test__]; every other key keeps its value. *)
Theorem handleFiles_stops_at_the_first_file
    (envs : nat -> Env) (file : File.t) (rest : list File.t)
    (s : State) (ls : LocalStorage.t) :
  let message :=
    if negb (valid (validateFile file))
    then match audioStorage.error (validateFile file) with Some e => e | None => "" end
    else "Failed to process " ++ File.name file ++ ": "
         ++ match processAudioFile (envs 0%nat) file with
            | JS.Throw cause => cause
            | JS.Ok _ =>
                if usable ls
                then "Failed to save audio file: Failed to execute 'readAsDataURL' on 'FileReader': parameter 1 is not of type 'Blob'."
                else "LocalStorage is not available"
            end in
  let saving :=
    valid (validateFile file)
    && match processAudioFile (envs 0%nat) file with
       | JS.Ok _ => true
       | JS.Throw _ => false
       end in
  fst (handleFiles envs (file :: rest) s ls)
  = JS.Ok ({| isDragOver := isDragOver s;
              uploading := false;
              uploadStatus := Some {| type := "error"; message := message |};
              uploadProgress := JS.Fin 0 |},
           None)
  /\ snd (handleFiles envs (file :: rest) s ls)
     = (if saving && usable ls then after_probe ls else ls)
  /\ (forall key, key <> "__storage_test__" ->
        items (snd (handleFiles envs (file :: rest) s ls)) !! key = items ls !! key)
  /\ (saving && usable ls = true ->
      items (snd (handleFiles envs (file :: rest) s ls)) !! "__storage_test__" = None).
Proof.
  unfold handleFiles. cbn [length Nat.eqb]. unfold bind. cbv beta iota.
  simpl upload_loop.
  destruct (valid (validateFile file)).
  - change (negb true) with false. cbv iota.
    unfold bind, try_catch, lift.
    destruct (processAudioFile (envs 0%nat) file) as [audioFile|cause].
    + rewrite saveAudioFile_of_object_message. cbv beta iota.
      destruct (usable ls); simpl.
      * split; [reflexivity|]. split; [reflexivity|]. split.
        -- intros key Hk. apply lookup_delete_ne. congruence.
        -- intros _. apply lookup_delete_eq.
      * repeat split. discriminate.
    + simpl. repeat split. discriminate.
  - simpl. repeat split. discriminate.
Qed.

End MoreUploaderProperties.

(** ** File names *)

Section TextProperties.

Import Text.

Lemma list_ascii_of_string_app (a b : string) :
  list_ascii_of_string (a ++ b)%string
  = (list_ascii_of_string a ++ list_ascii_of_string b)%list.
Proof. induction a as [|c a IH]; simpl; [reflexivity|]. rewrite IH. reflexivity. Qed.

Lemma span_plain_run (run rest : list ascii) :
  forallb plain run = true ->
  span_plain (run ++ "."%char :: rest) = (run, "."%char :: rest).
Proof.
  induction run as [|c run IH]; simpl; [reflexivity|].
  intros H. apply andb_true_iff in H as [Hc Hrun].
  rewrite Hc, (IH Hrun). reflexivity.
Qed.

Lemma forallb_rev {A} (p : A -> bool) (l : list A) :
  forallb p l = true -> forallb p (rev l) = true.
Proof.
  rewrite !forallb_forall. intros H x Hx. apply H. apply in_rev. exact Hx.
Qed.

(** X12. The track name taken from a file name
    ([name.replace(/\.[^/.]+$/, "")]) is the file name without its last
    extension: for an extension that is not empty and holds neither a
    dot nor a slash, stripping [base.ext] gives [base], whatever [base]
    is. *)
Theorem strip_extension_removes_last_extension (base ext : string) :
  ext <> "" ->
  forallb plain (list_ascii_of_string ext) = true ->
  strip_extension (base ++ "." ++ ext) = base.
Proof.
  intros Hne Hplain. unfold strip_extension.
  rewrite !list_ascii_of_string_app. simpl list_ascii_of_string at 2.
  rewrite rev_app_distr. simpl rev at 1. rewrite <- app_assoc. simpl app at 2.
  rewrite span_plain_run by (apply forallb_rev; exact Hplain).
  destruct (rev (list_ascii_of_string ext)) as [|c run] eqn:E.
  - exfalso. apply Hne.
    apply (f_equal (@rev ascii)) in E. rewrite rev_involutive in E. simpl in E.
    rewrite <- (string_of_list_ascii_of_string ext), E. reflexivity.
  - rewrite rev_involutive. apply string_of_list_ascii_of_string.
Qed.

Lemma strip_extension_removes_last_extension_witness :
  strip_extension ("01. Intro (live)" ++ "." ++ "mp3") = "01. Intro (live)".
Proof.
  assert (Hne : "mp3" <> "") by discriminate.
  assert (Hplain : forallb plain (list_ascii_of_string "mp3") = true) by reflexivity.
  exact (strip_extension_removes_last_extension "01. Intro (live)" "mp3" Hne Hplain).
Defined.

End TextProperties.

Section UploaderRuns.

Import Eff LocalStorage JSON audioStorage AudioUploader Stores.

Existing Instance JSONText.codec.

Lemma validateFile_implies_validateAudioFile_witness :
  accepted_format song_file = true
  /\ fst (validateAudioFile song_file library_store)
     = JS.Ok {| valid := true; error := None |}.
Proof.
  assert (Hv : valid (validateFile song_file) = true) by reflexivity.
  assert (Hu : usable library_store = true) by reflexivity.
  assert (Hroom : (File.size song_file
                   <= 10 * 1024 * 1024 - value_lengths (after_probe library_store))%Z)
    by (vm_compute; discriminate).
  pose proof (validateFile_implies_validateAudioFile song_file library_store Hv)
    as (H1 & _ & H3).
  split; [exact H1|exact (H3 Hu Hroom)].
Defined.

End UploaderRuns.

(** ** Playlist navigation and the dominant frequency *)

Section ComponentProperties.

Import AudioPlayer audioUtils.

Local Open Scope Z_scope.

Lemma handleNext_valid {A} (playlist : list A) (currentIndex : Z) :
  0 <= currentIndex < Z.of_nat (length playlist) ->
  handleNext playlist currentIndex
  = Some ((currentIndex + 1) mod Z.of_nat (length playlist)).
Proof.
  intros Hi. unfold handleNext.
  assert (Hn : (length playlist =? 0)%nat = false) by (apply Nat.eqb_neq; lia).
  rewrite Hn. f_equal. set (n := Z.of_nat (length playlist)) in *.
  destruct (Z.ltb_spec currentIndex (n - 1)).
  - symmetry. apply Z.mod_small. lia.
  - replace (currentIndex + 1) with n by lia. symmetry. apply Z_mod_same_full.
Qed.

Lemma handlePrevious_valid {A} (playlist : list A) (currentIndex : Z) :
  0 <= currentIndex < Z.of_nat (length playlist) ->
  handlePrevious playlist currentIndex
  = Some ((currentIndex - 1) mod Z.of_nat (length playlist)).
Proof.
  intros Hi. unfold handlePrevious.
  assert (Hn : (length playlist =? 0)%nat = false) by (apply Nat.eqb_neq; lia).
  rewrite Hn. f_equal. set (n := Z.of_nat (length playlist)) in *.
  rewrite Z.gtb_ltb. destruct (Z.ltb_spec 0 currentIndex).
  - symmetry. apply Z.mod_small. lia.
  - replace (currentIndex - 1) with (n - 1 + (-1) * n) by lia.
    rewrite Z_mod_plus_full. symmetry. apply Z.mod_small. lia.
Qed.

(** X13. Playlist navigation wraps around and never leaves the
    playlist: for a valid current index, [handleNext] and
    [handlePrevious] hand a valid index to [onTrackChange], the next one
    and the previous one modulo the length, and each undoes the other. *)
Theorem handleNext_handlePrevious_wrap_around
    {A} (playlist : list A) (currentIndex : Z) :
  0 <= currentIndex < Z.of_nat (length playlist) ->
  let n := Z.of_nat (length playlist) in
  handleNext playlist currentIndex = Some ((currentIndex + 1) mod n)
  /\ handlePrevious playlist currentIndex = Some ((currentIndex - 1) mod n)
  /\ 0 <= (currentIndex + 1) mod n < n
  /\ 0 <= (currentIndex - 1) mod n < n
  /\ handlePrevious playlist ((currentIndex + 1) mod n) = Some currentIndex
  /\ handleNext playlist ((currentIndex - 1) mod n) = Some currentIndex.
Proof.
  intros Hi n.
  assert (Hnext : 0 <= (currentIndex + 1) mod n < n) by (apply Z.mod_pos_bound; lia).
  assert (Hprev : 0 <= (currentIndex - 1) mod n < n) by (apply Z.mod_pos_bound; lia).
  split; [apply handleNext_valid, Hi|].
  split; [apply handlePrevious_valid, Hi|].
  split; [exact Hnext|]. split; [exact Hprev|]. split.
  - rewrite handlePrevious_valid by exact Hnext. fold n. f_equal.
    rewrite Zminus_mod_idemp_l. replace (currentIndex + 1 - 1) with currentIndex by lia.
    apply Z.mod_small. exact Hi.
  - rewrite handleNext_valid by exact Hprev. fold n. f_equal.
    rewrite Zplus_mod_idemp_l. replace (currentIndex - 1 + 1) with currentIndex by lia.
    apply Z.mod_small. exact Hi.
Qed.

Lemma handleNext_handlePrevious_wrap_around_witness :
  handleNext ["a"; "b"; "c"]%string 2 = Some ((2 + 1) mod 3)
  /\ handlePrevious ["a"; "b"; "c"]%string 0 = Some ((0 - 1) mod 3).
Proof.
  assert (H2 : 0 <= 2 < Z.of_nat (length ["a"; "b"; "c"]%string)) by (simpl; lia).
  assert (H0 : 0 <= 0 < Z.of_nat (length ["a"; "b"; "c"]%string)) by (simpl; lia).
  split.
  - exact (proj1 (handleNext_handlePrevious_wrap_around ["a"; "b"; "c"]%string 2 H2)).
  - exact (proj1 (proj2 (handleNext_handlePrevious_wrap_around
                           ["a"; "b"; "c"]%string 0 H0))).
Defined.

(** X14. Pressing next goes round the whole playlist: when the parent
    makes the index it is given the current one, [k] presses from a
    valid index [i] lead to index [(i + k) mod n], so that as many
    presses as there are tracks lead back to [i]. *)
Theorem handleNext_goes_round_the_playlist
    {A} (playlist : list A) (k : nat) (currentIndex : Z) :
  0 <= currentIndex < Z.of_nat (length playlist) ->
  let press i := match handleNext playlist i with Some j => j | None => i end in
  Nat.iter k press currentIndex
  = (currentIndex + Z.of_nat k) mod Z.of_nat (length playlist)
  /\ Nat.iter (length playlist) press currentIndex = currentIndex.
Proof.
  intros Hi press.
  set (n := Z.of_nat (length playlist)) in *.
  assert (Hiter : forall k, Nat.iter k press currentIndex = (currentIndex + Z.of_nat k) mod n).
  { clear k. induction k as [|k IH].
    - simpl. rewrite Z.add_0_r. symmetry. apply Z.mod_small. exact Hi.
    - rewrite Nat.iter_succ, IH. unfold press.
      rewrite handleNext_valid by (apply Z.mod_pos_bound; lia).
      fold n. rewrite Zplus_mod_idemp_l. f_equal. lia. }
  split; [apply Hiter|].
  rewrite Hiter. fold n. replace (currentIndex + n) with (currentIndex + 1 * n) by lia.
  rewrite Z_mod_plus_full. apply Z.mod_small. exact Hi.
Qed.

Lemma handleNext_goes_round_the_playlist_witness :
  Nat.iter 2 (fun i => match handleNext ["a"; "b"; "c"]%string i with
                       | Some j => j
                       | None => i
                       end) 2
  = (2 + Z.of_nat 2) mod Z.of_nat (length ["a"; "b"; "c"]%string).
Proof.
  assert (H2 : 0 <= 2 < Z.of_nat (length ["a"; "b"; "c"]%string)) by (simpl; lia).
  exact (proj1 (handleNext_goes_round_the_playlist ["a"; "b"; "c"]%string 2 2 H2)).
Defined.

Section Arithmetic.

Variables times divided_by : JS.number -> JS.number -> JS.number.

(** The loop keeps the first index at which the greatest value so far
    was met. *)
Lemma dominant_loop_spec (data : list Z) :
  forall (i maxIndex : nat) (maxValue : Z),
    let k := dominant_loop data i maxIndex maxValue in
    (k = maxIndex /\ forall x, In x data -> x <= maxValue)
    \/ exists j : nat,
         (j < length data)%nat
         /\ k = (i + j)%nat
         /\ maxValue < nth j data 0
         /\ (forall j' : nat, (j' < j)%nat -> nth j' data 0 < nth j data 0)
         /\ forall x, In x data -> x <= nth j data 0.
Proof.
  induction data as [|x rest IH]; intros i maxIndex maxValue; simpl.
  - left. split; [reflexivity|]. intros x [].
  - rewrite Z.gtb_ltb. destruct (Z.ltb_spec maxValue x) as [Hlt|Hge].
    + right. destruct (IH (S i) i x) as [[Hk Hall]|(j & Hj & Hk & Hgt & Hfirst & Hall)].
      * exists 0%nat. simpl. split; [lia|]. split; [lia|]. split; [exact Hlt|].
        split; [intros; lia|]. intros y [<-|Hy]; [lia|apply Hall, Hy].
      * exists (S j). simpl. split; [lia|]. split; [lia|]. split; [lia|].
        split.
        -- intros [|j'] Hj'; [lia|]. apply Hfirst. lia.
        -- intros y [<-|Hy]; [lia|apply Hall, Hy].
    + destruct (IH (S i) maxIndex maxValue)
        as [[Hk Hall]|(j & Hj & Hk & Hgt & Hfirst & Hall)].
      * left. split; [exact Hk|]. intros y [<-|Hy]; [lia|apply Hall, Hy].
      * right. exists (S j). simpl. split; [lia|]. split; [lia|]. split; [lia|].
        split.
        -- intros [|j'] Hj'; [lia|]. apply Hfirst. lia.
        -- intros y [<-|Hy]; [lia|apply Hall, Hy].
Qed.

(** X15. [getDominantFrequency] computes the frequency of the first bin
    that holds the greatest value: the bin [k] it uses in
    [(k * sampleRate) / (length * 2)] is 0 when no value is positive,
    and otherwise the smallest index whose value is the maximum of the
    data. *)
Theorem getDominantFrequency_uses_first_maximum
    (frequencyData : list Z) (sampleRate : JS.number) :
  exists k : nat,
    getDominantFrequency times divided_by frequencyData sampleRate
    = divided_by (times (of_nat k) sampleRate) (of_nat (length frequencyData * 2))
    /\ ((k = 0%nat /\ forall x, In x frequencyData -> x <= 0)
        \/ ((k < length frequencyData)%nat
            /\ 0 < nth k frequencyData 0
            /\ (forall j : nat, (j < k)%nat -> nth j frequencyData 0 < nth k frequencyData 0)
            /\ forall x, In x frequencyData -> x <= nth k frequencyData 0)).
Proof.
  exists (dominant_loop frequencyData 0 0 0). split; [reflexivity|].
  destruct (dominant_loop_spec frequencyData 0 0 0)
    as [[Hk Hall]|(j & Hj & Hk & Hgt & Hfirst & Hall)].
  - left. split; assumption.
  - right. simpl in Hk. rewrite Hk. repeat split; assumption.
Qed.

End Arithmetic.

End ComponentProperties.

(** ** The writers of the storage service fail without writing *)

Section WriterProperties.

Import Eff LocalStorage JSON audioStorage Stores Objects.

Context {codec : Codec}.

Lemma probe_frame (ls : LocalStorage.t) (key : string) :
  key <> "__storage_test__" ->
  items (if usable ls then after_probe ls else ls) !! key = items ls !! key.
Proof.
  intros Hk. destruct (usable ls); [apply after_probe_lookup, Hk|reflexivity].
Qed.

(** A write that is caught: it returns [true] or leaves the store as it
    found it. *)
Lemma caught_setItem (key text : string) (ls : LocalStorage.t) :
  exists written : bool,
    try_catch (setItem key text ;; ret true)%eff (fun _ => ret false) ls
    = (JS.Ok written,
       if written then LocalStorage.mk (<[key := text]> (items ls)) Usable else ls).
Proof.
  unfold try_catch, bind, setItem, ret.
  destruct (status ls); [exists false|exists false|exists true]; reflexivity.
Qed.

(** X22. The writers never throw and never half-write:
    [deleteAudioFile], [updateAudioFile], [savePlaylistState],
    [savePlaybackState], [saveUserPreferences] and [clearAllData] always
    return a boolean, whatever the store holds and however it answers.
    When one of the last four returns [false] the store is exactly as it
    was.  When [deleteAudioFile] or [updateAudioFile] returns [false] the
    store is as the availability probe they start with leaves it: on a
    usable store the probe's key [__storage_test__] is removed and every
    other key has the value it had; any other store is exactly as it
    was. *)
Theorem storage_writers_fail_without_writing
    (ls : LocalStorage.t) (id : string) (v : value) (env : Env) :
  let fails_leaving (left : LocalStorage.t) (r : JS.result bool * LocalStorage.t) :=
    exists done : bool, fst r = JS.Ok done /\ (done = false -> snd r = left) in
  let probed := if usable ls then after_probe ls else ls in
  fails_leaving probed (deleteAudioFile id ls)
  /\ fails_leaving probed (updateAudioFile id v ls)
  /\ fails_leaving ls (savePlaylistState v ls)
  /\ fails_leaving ls (savePlaybackState env v ls)
  /\ fails_leaving ls (saveUserPreferences v ls)
  /\ fails_leaving ls (clearAllData ls)
  /\ (forall key, key <> "__storage_test__" -> items probed !! key = items ls !! key)
  /\ (usable ls = true -> items probed !! "__storage_test__" = None)
  /\ (usable ls = false -> probed = ls).
Proof.
  intros fails_leaving probed. unfold fails_leaving, probed.
  assert (Hwrite : forall key text st,
            exists done : bool,
              fst (try_catch (setItem key text ;; ret true)%eff (fun _ => ret false) st)
              = JS.Ok done
              /\ (done = false ->
                  snd (try_catch (setItem key text ;; ret true)%eff
                                 (fun _ => ret false) st) = st)).
  { intros key text st. destruct (caught_setItem key text st) as ([|] & ->).
    - exists true. split; [reflexivity|discriminate].
    - exists false. split; reflexivity. }
  split; [|split; [|split; [|split; [|split; [|split; [|split; [|split]]]]]]].
  - unfold deleteAudioFile, try_catch, bind, lift. rewrite getAudioFiles_spec.
    cbv beta iota.
    destruct (elements <- as_array _ ;;; JSON.filter _ elements) as [updatedFiles|e].
    + apply (Hwrite STORAGE_KEYS.AUDIO_FILES).
    + exists false. split; reflexivity.
  - unfold updateAudioFile, try_catch, bind, lift. rewrite getAudioFiles_spec.
    cbv beta iota.
    destruct (as_array _) as [elements|e]; cbv beta iota;
      [|exists false; split; reflexivity].
    destruct (findIndex (has_id id) elements) as [[i|]|e]; cbv beta iota.
    + apply (Hwrite STORAGE_KEYS.AUDIO_FILES).
    + exists false. split; reflexivity.
    + exists false. split; reflexivity.
  - apply (Hwrite STORAGE_KEYS.CURRENT_PLAYLIST).
  - apply (Hwrite STORAGE_KEYS.PLAYBACK_STATE).
  - unfold saveUserPreferences, try_catch, bind. rewrite getUserPreferences_spec.
    cbv beta iota. apply (Hwrite STORAGE_KEYS.USER_PREFERENCES).
  - unfold clearAllData, try_catch, bind, removeItem, ret.
    destruct (status ls); simpl.
    + exists false. split; reflexivity.
    + exists true. split; [reflexivity|discriminate].
    + exists true. split; [reflexivity|discriminate].
  - intros key Hk. apply probe_frame, Hk.
  - intros ->. apply lookup_delete_eq.
  - intros ->. reflexivity.
Qed.

End WriterProperties.

(** ** The player hook: seeking, reset, play and pause, loading, sessions *)

Section MorePlayerProperties.

Import Eff useAudioPlayer Session Controls.
Local Open Scope eff_scope.

Variables plus minus : JS.number -> JS.number -> JS.number.

(** [Math.max(0, Math.min(t, d))] for a finite duration [d]. *)
Lemma clamp_to_duration (t : JS.number) (d : Q) :
  (0 <= d)%Q -> JS.isNaN t = false ->
  exists q, JS.Math_max (JS.Fin 0) (JS.Math_min t (JS.Fin d)) = JS.Fin q
            /\ (0 <= q)%Q /\ (q <= d)%Q.
Proof.
  intros Hd Ht. destruct t as [| |x|]; try discriminate.
  - exists 0%Q. split; [reflexivity|]. split; [apply Qle_refl|exact Hd].
  - rewrite Math_min_Fin, Math_max_Fin.
    destruct (Qle_bool x d) eqn:E1.
    + apply Qle_bool_iff in E1. destruct (Qle_bool x 0) eqn:E0.
      * exists 0%Q. split; [reflexivity|]. split; [apply Qle_refl|exact Hd].
      * exists x. split; [reflexivity|]. split; [|exact E1].
        apply Qlt_le_weak, Qnot_le_lt. intros H. apply Qle_bool_iff in H. congruence.
    + destruct (Qle_bool d 0) eqn:E0.
      * exists 0%Q. split; [reflexivity|]. split; [apply Qle_refl|exact Hd].
      * exists d. split; [reflexivity|]. split; [exact Hd|apply Qle_refl].
  - change (JS.Math_min JS.PosInf (JS.Fin d)) with (JS.Fin d).
    rewrite Math_max_Fin. destruct (Qle_bool d 0) eqn:E0.
    + exists 0%Q. split; [reflexivity|]. split; [apply Qle_refl|exact Hd].
    + exists d. split; [reflexivity|]. split; [exact Hd|apply Qle_refl].
Qed.

Lemma seekTo_finite_duration (d : Q) (t : JS.number) (h : Hook) :
  (0 <= d)%Q -> duration (state h) = JS.Fin d ->
  sought d h (seekTo (JS.Fin d) t h).
Proof.
  intros Hd Hdur. destruct h as [s [a|] l]; [|split; [reflexivity|left; reflexivity]].
  destruct (JS.isNaN t) eqn:Ht.
  - unfold seekTo, bind, audioRef_current. cbn. rewrite Ht.
    split; [reflexivity|left; reflexivity].
  - rewrite seekTo_mounted by assumption. cbv zeta.
    destruct (clamp_to_duration t d Hd Ht) as (q & -> & H0 & H1).
    split; [reflexivity|]. right. simpl. repeat split; assumption.
Qed.

(** X16. With a finite duration [d] the three seek controls never
    throw and never leave the track: after [seekTo(time)],
    [skipForward(seconds)] or [skipBackward(seconds)], whatever the
    arguments are (and whatever the sum or the difference comes to),
    either nothing has changed, or the [currentTime] of the state and of
    the element are one and the same time between 0 and [d]. *)
Theorem seeking_stays_within_the_track
    (h : Hook) (d : Q) (time : JS.number) (seconds : option JS.number) :
  duration (state h) = JS.Fin d ->
  (0 <= d)%Q ->
  sought d h (call_seekTo time h)
  /\ sought d h (call_skipForward plus seconds h)
  /\ sought d h (call_skipBackward minus seconds h).
Proof.
  intros Hdur Hd. unfold call_seekTo, call_skipForward, call_skipBackward. rewrite Hdur.
  split; [apply seekTo_finite_duration; assumption|]. split.
  - unfold skipForward, bind, audioRef_current.
    destruct (audioRef h) as [a|] eqn:Ha.
    + apply seekTo_finite_duration; assumption.
    + split; [reflexivity|left; reflexivity].
  - unfold skipBackward, bind, audioRef_current.
    destruct (audioRef h) as [a|] eqn:Ha.
    + apply seekTo_finite_duration; assumption.
    + split; [reflexivity|left; reflexivity].
Qed.

(** X17. [reset] never throws.  It clears the track, the playing and
    loading flags, the position, the duration and the error, and it
    pauses and rewinds the element; it keeps the volume, the shuffle
    flag and the repeat mode, and the element keeps its source.
    Afterwards [play] does nothing until a track is loaded. *)
Theorem reset_clears_playback_and_keeps_settings (h : Hook) :
  fst (reset h) = JS.Ok tt
  /\ state (after reset h)
     = mkState None false (JS.Fin 0) (JS.Fin 0) (volume (state h)) false None
               (isShuffling (state h)) (repeatMode (state h))
  /\ audioRef (after reset h)
     = option_map (fun a => Audio.mk (Audio.src a) (Audio.preload a) (Audio.volume a)
                                     (JS.Fin 0) (Audio.duration a) true)
                  (audioRef h)
  /\ listenerRender (after reset h) = listenerRender h
  /\ forall resolves,
       call_play resolves (after reset h) = (JS.Ok tt, after reset h).
Proof.
  destruct h as [s [a|] l]; repeat split.
Qed.

(** X18. With the element in place and a track loaded, and as long as
    the browser lets the element play, [togglePlayPause] flips
    [isPlaying] and leaves the element paused exactly when [isPlaying] is
    off; two calls bring [isPlaying] back.  Nothing else in the state
    changes but the error, which a successful [play] clears. *)
Theorem togglePlayPause_flips_isPlaying (h : Hook) (a : Audio.t) (track : Track) :
  audioRef h = Some a ->
  currentTrack (state h) = Some track ->
  let h' := after (call_togglePlayPause true) h in
  fst (call_togglePlayPause true h) = JS.Ok tt
  /\ isPlaying (state h') = negb (isPlaying (state h))
  /\ option_map Audio.paused (audioRef h') = Some (isPlaying (state h))
  /\ currentTrack (state h') = Some track
  /\ volume (state h') = volume (state h)
  /\ currentTime (state h') = currentTime (state h)
  /\ isPlaying (state (after (call_togglePlayPause true) h')) = isPlaying (state h).
Proof.
  intros Ha Ht h'. subst h'. destruct h as [s ar l]. simpl in Ha, Ht. subst ar.
  destruct s as [ct playing' time' duration' volume' loading' error' shuffling' mode'].
  simpl in Ht. subst ct. destruct playing'; repeat split.
Qed.

Lemma togglePlayPause_flips_isPlaying_witness :
  isPlaying (state (after (call_togglePlayPause true) playing)) = false
  /\ option_map Audio.paused (audioRef (after (call_togglePlayPause true) playing))
     = Some true.
Proof.
  assert (Ha : audioRef playing
               = Some (Audio.mk "data:audio/mpeg;base64,AAAAAA==" "metadata" (JS.Fin 1)
                                (JS.Fin 0) (JS.Fin 180) false)) by reflexivity.
  assert (Ht : currentTrack (state playing) = Some song) by reflexivity.
  pose proof (togglePlayPause_flips_isPlaying playing _ song Ha Ht) as (_ & H1 & H2 & _).
  split; [exact H1|exact H2].
Defined.

(** X19. Loading a track.  With the element in place and a volume
    between 0 and 1, [loadTrack(track)] followed by the element's
    [loadstart], [loadedmetadata] (duration [d]) and [canplay] events
    does not throw and leaves the track current, the position 0, the
    duration [d], no error and the loading flag off; the element has the
    track's url and the volume of the state.  [isPlaying] is left as it
    was.  If the element fires [error] instead, the error is 'Failed to
    load audio file', [isPlaying] is off and the duration is still the
    one from before the load. *)
Theorem loading_a_track
    (h : Hook) (a : Audio.t) (track : Track) (c : ascii) (u : string) (d : JS.number) :
  audioRef h = Some a ->
  url track = Some (String c u) ->
  in_unit_interval (volume (state h)) ->
  let loaded := (call_loadTrack (Some track) ;; loadstart ;; loadedmetadata d ;; canplay) in
  let failed := (call_loadTrack (Some track) ;; loadstart ;; error_event) in
  fst (loaded h) = JS.Ok tt
  /\ state (after loaded h)
     = mkState (Some track) (isPlaying (state h)) (JS.Fin 0) d (volume (state h)) false None
               (isShuffling (state h)) (repeatMode (state h))
  /\ audioRef (after loaded h)
     = Some (Audio.mk (String c u) (Audio.preload a) (volume (state h)) (JS.Fin 0) d true)
  /\ fst (failed h) = JS.Ok tt
  /\ state (after failed h)
     = mkState (Some track) false (JS.Fin 0) (duration (state h)) (volume (state h)) false
               (Some "Failed to load audio file")
               (isShuffling (state h)) (repeatMode (state h)).
Proof.
  intros Ha Hu Hv loaded failed. subst loaded failed.
  destruct h as [s ar l]. simpl in Ha, Hv. subst ar.
  destruct track as [i n u0]. simpl in Hu. subst u0.
  destruct (volume s) as [| |q|] eqn:Hq; try contradiction. destruct Hv as [H0 H1].
  unfold after, call_loadTrack, loadTrack, bind, audioRef_current, on_audio.
  cbn -[Audio.set_volume]. rewrite ?Hq.
  rewrite set_volume_in_range by assumption.
  cbn. rewrite ?Hq. repeat split.
Qed.

Lemma loading_a_track_witness :
  state (after (call_loadTrack (Some song) ;; loadstart ;; loadedmetadata (JS.Fin 180) ;; canplay)
               mounted)
  = mkState (Some song) false (JS.Fin 0) (JS.Fin 180) (JS.Fin 1) false None false "none".
Proof.
  assert (Ha : audioRef mounted
               = Some (Audio.mk "" "metadata" (JS.Fin 1) (JS.Fin 0) JS.NaN true))
    by reflexivity.
  assert (Hu : url song = Some (String "d" "ata:audio/mpeg;base64,AAAAAA==")) by reflexivity.
  assert (Hv : in_unit_interval (volume (state mounted))) by (split; discriminate).
  pose proof (loading_a_track mounted _ song _ _ (JS.Fin 180) Ha Hu Hv) as (_ & H & _).
  exact H.
Defined.

(** *** What every action keeps *)

Lemma keeps_ret {A} (x : A) : keeps_volume (ret (S := Hook) x).
Proof. intros h. repeat split. Qed.

Lemma keeps_bind {A B} (m : M Hook A) (k : A -> M Hook B) :
  keeps_volume m -> (forall x, keeps_volume (k x)) -> keeps_volume (bind m k).
Proof.
  intros Hm Hk h. unfold bind. specialize (Hm h).
  destruct (m h) as [[x|e] h1]; simpl in *; [|exact Hm].
  destruct (Hk x h1) as (K1 & K2 & K3). destruct Hm as (M1 & M2 & M3).
  repeat split; congruence.
Qed.

Lemma keeps_setter (f : State -> State) :
  (forall s, volume (f s) = volume s) -> keeps_volume (update (with_state f)).
Proof. intros Hf h. simpl. repeat split. apply Hf. Qed.

Lemma keeps_on_audio (f : Audio.t -> JS.result Audio.t) :
  (forall a a', f a = JS.Ok a' -> Audio.volume a' = Audio.volume a) ->
  keeps_volume (on_audio f).
Proof.
  intros Hf h. unfold on_audio. destruct h as [s [a|] l]; simpl; [|repeat split].
  destruct (f a) as [a'|e] eqn:E; simpl; repeat split.
  f_equal. apply Hf, E.
Qed.

Lemma keeps_audioRef_current : keeps_volume audioRef_current.
Proof. intros h. repeat split. Qed.

Lemma keeps_set_currentTime (v : JS.number) : keeps_volume (on_audio (Audio.set_currentTime v)).
Proof.
  apply keeps_on_audio. intros a a' H. destruct v; try discriminate.
  injection H as <-. reflexivity.
Qed.

Lemma keeps_audio_play : keeps_volume (on_audio Audio.play).
Proof. apply keeps_on_audio. intros a a' H. injection H as <-. reflexivity. Qed.

Lemma keeps_audio_pause : keeps_volume (on_audio Audio.pause).
Proof. apply keeps_on_audio. intros a a' H. injection H as <-. reflexivity. Qed.

Lemma keeps_metadata_loaded (d : JS.number) :
  keeps_volume (on_audio (fun a => JS.Ok (Audio.metadata_loaded d a))).
Proof. apply keeps_on_audio. intros a a' H. injection H as <-. reflexivity. Qed.

Ltac keeps :=
  repeat first
    [ apply keeps_ret
    | apply keeps_audioRef_current
    | apply keeps_set_currentTime
    | apply keeps_audio_play
    | apply keeps_audio_pause
    | apply keeps_metadata_loaded
    | (apply keeps_setter; intros ?; reflexivity)
    | (apply keeps_bind; [|intros ?])
    | match goal with
      | |- keeps_volume (match ?x with _ => _ end) => destruct x
      end ].

Lemma keeps_pause : keeps_volume pause.
Proof. unfold pause. keeps. Qed.

Lemma keeps_play (currentTrack' : option Track) (resolves : bool) :
  keeps_volume (play currentTrack' resolves).
Proof. unfold play. keeps. Qed.

Lemma keeps_seekTo (duration' time : JS.number) : keeps_volume (seekTo duration' time).
Proof. unfold seekTo. keeps. Qed.

Lemma keeps_reset : keeps_volume reset.
Proof. unfold reset. keeps. Qed.

Lemma keeps_handleEnded (r : State) : keeps_volume (handleEnded r).
Proof. unfold handleEnded, handleTrackEnd. keeps. Qed.

Lemma keeps_ended : keeps_volume ended.
Proof.
  intros h. unfold ended. destruct (listenerRender h) as [r|] eqn:E.
  - rewrite <- E. apply keeps_handleEnded.
  - simpl. repeat split. exact E.
Qed.

Lemma keeps_loadedmetadata (d : JS.number) : keeps_volume (loadedmetadata d).
Proof. unfold loadedmetadata, handleLoadedMetadata. keeps. Qed.

(** Every action but the three that set the volume. *)
Lemma perform_keeps_volume (a : action) :
  match a with
  | LoadTrack _ | ChangeVolume _ | ToggleMute => True
  | _ => keeps_volume (perform plus minus a)
  end.
Proof.
  destruct a; try exact I; simpl perform.
  - intros h. apply keeps_play.
  - apply keeps_pause.
  - intros h. unfold call_togglePlayPause, togglePlayPause.
    destruct (isPlaying (state h)); [apply keeps_pause|apply keeps_play].
  - intros h. apply keeps_seekTo.
  - unfold toggleShuffle, setIsShuffling. keeps.
  - unfold toggleRepeat, setRepeatMode. keeps.
  - intros [s [a|] l]; unfold call_skipForward, skipForward, bind, audioRef_current;
      cbn [audioRef]; [apply keeps_seekTo|repeat split].
  - intros [s [a|] l]; unfold call_skipBackward, skipBackward, bind, audioRef_current;
      cbn [audioRef]; [apply keeps_seekTo|repeat split].
  - apply keeps_reset.
  - unfold loadstart, handleLoadStart. keeps.
  - apply keeps_loadedmetadata.
  - unfold canplay, handleCanPlay. keeps.
  - unfold error_event, handleError. keeps.
  - apply keeps_ended.
Qed.

Lemma keeps_steady {A} (m : M Hook A) (h : Hook) :
  keeps_volume m -> steady h -> steady (snd (m h)).
Proof.
  intros Hm (Hl & Hv & Ha). destruct (Hm h) as (M1 & M2 & M3).
  unfold steady. rewrite M1, M2, M3. repeat split; assumption.
Qed.

Lemma perform_steady (a : action) (h : Hook) :
  steady h -> steady (snd (perform plus minus a h)).
Proof.
  intros Hs. pose proof (perform_keeps_volume a) as Hk.
  destruct a; try (apply keeps_steady; assumption); clear Hk; simpl perform;
    destruct Hs as (Hl & Hv & Ha); destruct h as [s [au|] l]; try discriminate;
    simpl in Hl, Hv, Ha; injection Ha as Ha.
  - (* loadTrack *)
    unfold call_loadTrack, loadTrack. simpl state.
    destruct track as [[i n [[|c u]|]]|]; try (repeat split; simpl; congruence).
    destruct (volume s) as [| |q|] eqn:Hq; try contradiction. destruct Hv as [H0 H1].
    unfold bind, audioRef_current, on_audio. cbn -[Audio.set_volume]. rewrite ?Hq.
    rewrite set_volume_in_range by assumption. cbn. rewrite ?Hq.
    repeat split; assumption.
  - (* changeVolume *)
    destruct (clamp_unit_cases newVolume) as (q & Hq & H0 & H1 & _).
    unfold changeVolume, bind, audioRef_current. cbn -[JS.Math_max JS.Math_min].
    rewrite Hq. unfold on_audio. cbn -[Audio.set_volume].
    rewrite set_volume_in_range by assumption. repeat split; assumption.
  - (* toggleMute *)
    rewrite toggleMute_mounted. cbn -[JS.gt].
    destruct (JS.gt (Audio.volume au) (JS.Fin 0)); repeat split; try assumption;
      discriminate.
Qed.

Lemma session_steady (actions : list action) :
  forall h, steady h -> steady (session plus minus actions h).
Proof.
  induction actions as [|a actions IH]; intros h Hs; [exact Hs|].
  simpl. apply IH, perform_steady, Hs.
Qed.

Lemma mounted_steady : steady mounted.
Proof. repeat split; discriminate. Qed.

(** X20. The volume shown is the volume heard, as long as every call
    is made through the callbacks of the render that is current when it
    is made (one call of a control per event handler): after any
    sequence of such calls and of events of the element, starting from
    the mounted hook, the [volume] of the state is the [volume] of the
    audio element, and it lies between 0 and 1.  Two calls in one
    handler can break it: [loadTrack] is a callback over [volume], so
    after [changeVolume(0.3)] the [loadTrack] of the same render still
    gives the element the volume 1 of that render, while the state holds
    0.3. *)
Theorem volume_shown_is_volume_heard (actions : list action) :
  (let h := session plus minus actions mounted in
   in_unit_interval (volume (state h))
   /\ option_map Audio.volume (audioRef h) = Some (volume (state h)))
  /\ (let h := after (changeVolume (JS.Fin (3 # 10)) ;;
                      loadTrack (volume (state mounted)) (Some song)) mounted in
      volume (state h) = JS.Fin (3 # 10)
      /\ option_map Audio.volume (audioRef h) = Some (JS.Fin 1)).
Proof.
  destruct (session_steady actions mounted mounted_steady) as (_ & Hv & Ha).
  split; [split; assumption|]. split; reflexivity.
Qed.

(** X21. The end of a track always stops the player: after any
    sequence of calls and events, with any repeat mode, the [ended]
    event sets [isPlaying] off and the position of the state to 0 and
    leaves the element alone, because the listener registered at mount
    keeps the repeat mode of the first render. *)
Theorem ended_always_stops_the_player (actions : list action) :
  let h := session plus minus actions mounted in
  fst (ended h) = JS.Ok tt
  /\ state (after ended h)
     = mkState (currentTrack (state h)) false (JS.Fin 0) (duration (state h))
               (volume (state h)) (isLoading (state h)) (error (state h))
               (isShuffling (state h)) (repeatMode (state h))
  /\ audioRef (after ended h) = audioRef h.
Proof.
  destruct (session_steady actions mounted mounted_steady) as (Hl & _).
  intros h. unfold after. rewrite (ended_of_first_render h Hl). repeat split.
Qed.

End MorePlayerProperties.

(** ** Runs of the player *)

Section MorePlayerRuns.

Import Eff useAudioPlayer Session Controls Samples.

(** Skipping 200 seconds forward in a track of 180 seconds. *)
Lemma seeking_stays_within_the_track_witness :
  sought 180 playing (call_skipForward exact_plus (Some (JS.Fin 200)) playing).
Proof.
  assert (Hdur : duration (state playing) = JS.Fin 180) by reflexivity.
  assert (Hd : (0 <= 180)%Q) by discriminate.
  pose proof (seeking_stays_within_the_track exact_plus exact_minus playing 180
                (JS.Fin 200) (Some (JS.Fin 200)) Hdur Hd) as (_ & H & _).
  exact H.
Defined.

Example skipping_samples :
  currentTime (state (after (call_skipForward exact_plus (Some (JS.Fin 200))) playing))
  = JS.Fin 180
  /\ currentTime (state (after (call_skipForward exact_plus None) playing)) = JS.Fin 10
  /\ currentTime (state (after (call_skipBackward exact_minus None) playing)) = JS.Fin 0.
Proof. repeat split. Qed.

End MorePlayerRuns.
